(** * RDMA SR-IOV device plugin (server.go): a shallow embedding

    The plugin advertises the virtual functions of SR-IOV capable network
    devices to the kubelet.  This development embeds [server.go] function by
    function and proves the properties stated about it.

    Modelling conventions.
    - A Go pointer [*pluginapi.Device] is an index into a store of devices
      ([Heap]); [None] is the nil pointer.  The device list [m.devs] is a list
      of such pointers, so that the mutation [d.Health = Unhealthy] is seen
      through every alias.
    - The libraries the plugin calls (sriovnet, os, net, grpc) are taken
      through narrow interfaces: their effects are explicit state passing over
      a host state, and what the environment decides (a refused unlink, a
      refused dial, the kubelet's answer) is read from an [Env] record.
    - A blocking [select] is modelled by the event it delivers.
    - Diagnostic printing ([fmt.Println], [log.Println]) has no effect on any
      value the program computes and is left out. *)

From Stdlib Require Import Ascii String.
From stdpp Require Import base option list strings gmap.

Local Open Scope string_scope.
Local Open Scope list_scope.

(** ** Errors and results *)

(** Go's [error] values.  [ENOENT] is the only error [os.IsNotExist]
    recognises; every other error carries its message. *)
Inductive error : Type :=
  | ENOENT
  | Err (msg : string).

Definition os_IsNotExist (e : error) : bool :=
  match e with
  | ENOENT => true
  | Err _ => false
  end.

(** A Go result pair [(T, error)] of which exactly one side is set. *)
Inductive result (A : Type) : Type :=
  | Ok (a : A)
  | Fail (e : error).
Arguments Ok {A} a.
Arguments Fail {A} e.

(** What a call can do: return, or bring the process down by a panic. *)
Inductive completion (A : Type) : Type :=
  | Ret (a : A)
  | Panic.
Arguments Ret {A} a.
Arguments Panic {A}.

(** ** Constants *)

Definition RdmaSriovDpSocket : string := "rdma-sriov-dp.sock".
Definition RdmaSriovResourceName : string := "rdma/vhca".
Definition RdmaDevices : string := "/dev/infiniband".

(** Constants of the device-plugin API package (v1beta1). *)
Module pluginapi.
Definition Healthy : string := "Healthy".
Definition Unhealthy : string := "Unhealthy".
Definition Version : string := "v1beta1".
Definition DevicePluginPath : string := "/var/lib/kubelet/device-plugins/".
Definition KubeletSocket : string := DevicePluginPath +:+ "kubelet.sock".
End pluginapi.

(** ** Messages of the device-plugin API *)

Record Device : Type := mkDevice {
  ID : string;
  Health : string
}.

Record DeviceSpec : Type := mkDeviceSpec {
  ContainerPath : string;
  HostPath : string;
  Permissions : string
}.

Record ContainerAllocateRequest : Type := mkContainerAllocateRequest {
  DevicesIDs : list string
}.

(** [ContainerRequests] is a slice of pointers: an entry may be nil. *)
Record AllocateRequest : Type := mkAllocateRequest {
  ContainerRequests : list (option ContainerAllocateRequest)
}.

Record ContainerAllocateResponse : Type := mkContainerAllocateResponse {
  Devices : list (option DeviceSpec)
}.

Record AllocateResponse : Type := mkAllocateResponse {
  ContainerResponses : list (option ContainerAllocateResponse)
}.

Record DevicePluginOptions : Type := mkDevicePluginOptions {
  PreStartRequired : bool
}.

Record PreStartContainerResponse : Type := mkPreStartContainerResponse { }.

Record RegisterRequest : Type := mkRegisterRequest {
  req_Version : string;
  req_Endpoint : string;
  req_ResourceName : string
}.

(** The generated getter is nil-safe: on a nil request it returns the nil
    slice. *)
Definition GetContainerRequests (r : option AllocateRequest)
  : list (option ContainerAllocateRequest) :=
  match r with
  | Some req => ContainerRequests req
  | None => []
  end.

(** ** The store of devices *)

Abbreviation ptr := (option nat).
Abbreviation Heap := (list Device).

Definition deref (h : Heap) (p : ptr) : option Device :=
  match p with
  | Some l => h !! l
  | None => None
  end.

(** [&pluginapi.Device{...}]: a fresh cell, never nil. *)
Definition new_Device (d : Device) (h : Heap) : ptr * Heap :=
  (Some (length h), h ++ [d]).

(** [d.Health = v].  Writing through nil panics ([None]); Go has no dangling
    pointers, so an address outside the store is treated the same way. *)
Definition set_Health (p : ptr) (v : string) (h : Heap) : option Heap :=
  match p with
  | Some l =>
      match h !! l with
      | Some d => Some (<[l := {| ID := ID d; Health := v |}]> h)
      | None => None
      end
  | None => None
  end.

(** ** Allocate *)

(** One iteration of the loop of [Allocate]: [ds] is made with one nil slot,
    slot 0 is filled, and the response is stored at index [i]. *)
Definition Allocate_body (ress : list (option ContainerAllocateResponse)) (i : nat)
  : list (option ContainerAllocateResponse) :=
  let ds := replicate 1 (None : option DeviceSpec) in
  let ds := <[0 := Some {| ContainerPath := RdmaDevices;
                           HostPath := RdmaDevices;
                           Permissions := "rwm" |}]> ds in
  <[i := Some {| Devices := ds |}]> ress.

(** [Allocate] does not read its receiver, so the model has no receiver
    argument. *)
Definition Allocate (r : option AllocateRequest)
  : AllocateResponse * option error :=
  let n := length (GetContainerRequests r) in
  let ress := replicate n (None : option ContainerAllocateResponse) in
  let ress := foldl Allocate_body ress (seq 0 n) in
  ({| ContainerResponses := ress |}, None).

Definition GetDevicePluginOptions : DevicePluginOptions * option error :=
  ({| PreStartRequired := false |}, None).

Definition PreStartContainer : PreStartContainerResponse * option error :=
  (mkPreStartContainerResponse, None).

(** ** The device inventory builder *)

Record UserConfig : Type := mkUserConfig {
  PfNetdevices : list string
}.

(** The part of the sriovnet library the plugin calls.  Every call acts on the
    host's network configuration, the [World], and is given as a state
    transformer.  A handle is a pointer into the library's own data, so the
    field read [pfHandle.List] is a read of the [World]. *)
Class Sriovnet (World PfNetdevHandle VfObj : Type) : Type := {
  EnableSriov : string → World → option error * World;
  GetPfNetdevHandle : string → World → result PfNetdevHandle * World;
  ConfigVfs : PfNetdevHandle → bool → World → option error * World;
  handle_List : PfNetdevHandle → World → list VfObj;
  GetVfNetdevName : PfNetdevHandle → VfObj → World → string * World;
  GetVfDefaultMacAddr : string → World → (string * option error) * World
}.

(** Unbuffered channels: whether the channel has been closed, and the values
    of the senders blocked on it, oldest first. *)
Record chan (A : Type) : Type := mkChan {
  closed : bool;
  sendq : list A
}.
Arguments mkChan {A} closed sendq.
Arguments closed {A} c.
Arguments sendq {A} c.

Definition make_chan {A : Type} : chan A := {| closed := false; sendq := [] |}.

(** A gRPC server, known by the listeners it serves. *)
Record grpc_Server : Type := mkServer {
  listeners : list string
}.

Record RdmaSriovDevPlugin : Type := mkPlugin {
  resourceName : string;
  socket : string;
  devs : list ptr;
  stop : chan ();
  health : chan ptr;
  server : option grpc_Server
}.

Section Builder.
Context {World PfNetdevHandle VfObj : Type}.
Context `{!Sriovnet World PfNetdevHandle VfObj}.

Definition configSriov (pfNetdevName : string) (w : World)
  : result PfNetdevHandle * World :=
  let '(err, w) := EnableSriov pfNetdevName w in
  match err with
  | Some e => (Fail e, w)
  | None =>
      let '(r, w) := GetPfNetdevHandle pfNetdevName w in
      match r with
      | Fail e => (Fail e, w)
      | Ok pfHandle =>
          let '(err, w) := ConfigVfs pfHandle true w in
          match err with
          | Some e => (Fail e, w)
          | None => (Ok pfHandle, w)
          end
      end
  end.

(** The inner loop [for _, vf := range pfHandle.List], appending to [devs].
    The error of [GetVfDefaultMacAddr] is dropped, as in the source. *)
Fixpoint vf_loop (pfHandle : PfNetdevHandle) (vfs : list VfObj)
    (devs : list ptr) (w : World) (h : Heap) : list ptr * World * Heap :=
  match vfs with
  | [] => (devs, w, h)
  | vf :: vfs =>
      let '(vfNetdevName, w) := GetVfNetdevName pfHandle vf w in
      let '(id, _, w) := GetVfDefaultMacAddr vfNetdevName w in
      let '(dpDevice, h) :=
        new_Device {| ID := id; Health := pluginapi.Healthy |} h in
      vf_loop pfHandle vfs (devs ++ [dpDevice]) w h
  end.

(** The outer loop [for _, ndev := range config.PfNetdevices]; a failed
    [configSriov] is the [continue]. *)
Fixpoint ndev_loop (ndevs : list string)
    (devs : list ptr) (w : World) (h : Heap) : list ptr * World * Heap :=
  match ndevs with
  | [] => (devs, w, h)
  | ndev :: ndevs =>
      let '(r, w) := configSriov ndev w in
      match r with
      | Fail err2 => ndev_loop ndevs devs w h
      | Ok pfHandle =>
          let '(devs, w, h) :=
            vf_loop pfHandle (handle_List pfHandle w) devs w h in
          ndev_loop ndevs devs w h
      end
  end.

Definition NewRdmaSriovDevPlugin (config : UserConfig) (w : World) (h : Heap)
  : RdmaSriovDevPlugin * World * Heap :=
  let devs : list ptr := [] in
  let '(devs, w, h) :=
    if decide (length (PfNetdevices config) = 0) then (devs, w, h)
    else ndev_loop (PfNetdevices config) devs w h in
  ({| resourceName := RdmaSriovResourceName;
      socket := pluginapi.DevicePluginPath +:+ RdmaSriovDpSocket;
      devs := devs;
      stop := make_chan;
      health := make_chan;
      server := None |}, w, h).

(** Specification of the builder, device by device and without the
    accumulator of the loops above.  What one physical device adds to the
    inventory: the identifiers of the virtual functions of its handle when
    its configuration succeeds, nothing when it fails.  [contributions]
    lists this for each device, in the order of the configuration. *)
Fixpoint vf_ids (pfHandle : PfNetdevHandle) (vfs : list VfObj) (w : World)
  : list string * World :=
  match vfs with
  | [] => ([], w)
  | vf :: vfs =>
      let '(vfNetdevName, w) := GetVfNetdevName pfHandle vf w in
      let '(id, _, w) := GetVfDefaultMacAddr vfNetdevName w in
      let '(ids, w) := vf_ids pfHandle vfs w in
      (id :: ids, w)
  end.

Definition contribution (ndev : string) (w : World) : list string * World :=
  let '(r, w) := configSriov ndev w in
  match r with
  | Fail _ => ([], w)
  | Ok pfHandle => vf_ids pfHandle (handle_List pfHandle w) w
  end.

Fixpoint contributions (ndevs : list string) (w : World)
  : list (list string) :=
  match ndevs with
  | [] => []
  | ndev :: ndevs =>
      let '(ids, w) := contribution ndev w in
      ids :: contributions ndevs w
  end.

(** For each device, in order: [Some] of the number of virtual functions
    of its handle when its configuration succeeds, [None] when it fails. *)
Fixpoint vf_counts (ndevs : list string) (w : World) : list (option nat) :=
  match ndevs with
  | [] => []
  | ndev :: ndevs =>
      let c := match configSriov ndev w with
               | (Ok pfHandle, w') => Some (length (handle_List pfHandle w'))
               | (Fail _, _) => None
               end in
      c :: vf_counts ndevs (contribution ndev w).2
  end.

(** The network configuration once every device has been processed. *)
Fixpoint world_after (ndevs : list string) (w : World) : World :=
  match ndevs with
  | [] => w
  | ndev :: ndevs => world_after ndevs (contribution ndev w).2
  end.
End Builder.

(** ** The host: files, sockets and the kubelet *)

Record Host : Type := mkHost {
  fs : gset string;                    (* paths that exist *)
  listening : gset string;             (* unix sockets that accept connections *)
  kubelet_log : list RegisterRequest   (* registration calls the kubelet received *)
}.

(** What the environment decides: for each request, the message of the error
    it answers with, if any. *)
Record Env : Type := mkEnv {
  unlink_refused : string → option string;
  listen_refused : string → option string;
  dial_refused : string → option string;
  register_refused : RegisterRequest → option string
}.

Record Listener : Type := mkListener { Addr : string }.
Record ClientConn : Type := mkClientConn { Target : string }.

Definition os_Remove (env : Env) (name : string) (host : Host)
  : option error * Host :=
  if decide (name ∈ fs host) then
    match unlink_refused env name with
    | Some msg => (Some (Err msg), host)
    | None =>
        (None, {| fs := fs host ∖ {[name]};
                  listening := listening host;
                  kubelet_log := kubelet_log host |})
    end
  else (Some ENOENT, host).

(** [net.Listen("unix", addr)] binds a new socket file; it fails on a path
    that exists. *)
Definition net_Listen (env : Env) (addr : string) (host : Host)
  : result Listener * Host :=
  if decide (addr ∈ fs host) then
    (Fail (Err "bind: address already in use"), host)
  else
    match listen_refused env addr with
    | Some msg => (Fail (Err msg), host)
    | None =>
        (Ok {| Addr := addr |},
         {| fs := fs host ∪ {[addr]};
            listening := listening host;
            kubelet_log := kubelet_log host |})
    end.

Definition grpc_NewServer : grpc_Server := {| listeners := [] |}.

(** [go srv.Serve(sock)]: the server accepts connections on the listener. *)
Definition grpc_Serve (srv : grpc_Server) (sock : Listener) (host : Host)
  : grpc_Server * Host :=
  ({| listeners := Addr sock :: listeners srv |},
   {| fs := fs host;
      listening := listening host ∪ {[Addr sock]};
      kubelet_log := kubelet_log host |}).

(** [srv.Stop()]: the listeners are closed, nothing is dispatched any more. *)
Definition grpc_Stop (srv : grpc_Server) (host : Host) : Host :=
  {| fs := fs host;
     listening := listening host ∖ list_to_set (listeners srv);
     kubelet_log := kubelet_log host |}.

(** A blocking [grpc.Dial] with a timeout (in seconds). *)
Definition grpc_Dial (env : Env) (target : string) (timeout : nat) (host : Host)
  : result ClientConn :=
  if decide (target ∈ listening host) then
    match dial_refused env target with
    | Some msg => Fail (Err msg)
    | None => Ok {| Target := target |}
    end
  else Fail (Err "context deadline exceeded").

(** The registration call on the kubelet's [Registration] service. *)
Definition client_Register (env : Env) (reqt : RegisterRequest) (host : Host)
  : option error * Host :=
  (Err <$> register_refused env reqt,
   {| fs := fs host;
      listening := listening host;
      kubelet_log := kubelet_log host ++ [reqt] |}).

(** [path.Base]: the last element of a path, trailing slashes removed. *)
Definition slash : ascii := "/"%char.

Fixpoint strip_slashes (r : list ascii) : list ascii :=
  match r with
  | c :: r' => if decide (c = slash) then strip_slashes r' else r
  | [] => []
  end.

Fixpoint upto_slash (r : list ascii) : list ascii :=
  match r with
  | c :: r' => if decide (c = slash) then [] else c :: upto_slash r'
  | [] => []
  end.

Definition path_Base (path : string) : string :=
  if decide (path = "") then "."
  else
    let r := strip_slashes (reverse (list_ascii_of_string path)) in
    let last := string_of_list_ascii (reverse (upto_slash r)) in
    if decide (last = "") then "/" else last.

(** ** Lifecycle *)

Definition set_server (m : RdmaSriovDevPlugin) (s : option grpc_Server)
  : RdmaSriovDevPlugin :=
  {| resourceName := resourceName m; socket := socket m; devs := devs m;
     stop := stop m; health := health m; server := s |}.

Definition set_stop (m : RdmaSriovDevPlugin) (c : chan ())
  : RdmaSriovDevPlugin :=
  {| resourceName := resourceName m; socket := socket m; devs := devs m;
     stop := c; health := health m; server := server m |}.

Definition set_health (m : RdmaSriovDevPlugin) (c : chan ptr)
  : RdmaSriovDevPlugin :=
  {| resourceName := resourceName m; socket := socket m; devs := devs m;
     stop := stop m; health := c; server := server m |}.

(** [close(c)] panics on a closed channel, and makes every blocked sender
    panic. *)
Definition chan_close {A : Type} (c : chan A) : option (chan A) :=
  if closed c then None
  else match sendq c with
       | [] => Some {| closed := true; sendq := [] |}
       | _ :: _ => None
       end.

(** [c <- v]: the sender blocks until a receiver takes the value; sending on
    a closed channel panics. *)
Definition chan_send {A : Type} (v : A) (c : chan A) : option (chan A) :=
  if closed c then None
  else Some {| closed := closed c; sendq := sendq c ++ [v] |}.

(** [<-c]: the value of the oldest blocked sender; on a closed channel the
    zero value; otherwise the receiver would block ([None]). *)
Definition chan_recv {A : Type} (zero : A) (c : chan A) : option (A * chan A) :=
  match sendq c with
  | v :: q => Some (v, {| closed := closed c; sendq := q |})
  | [] => if closed c then Some (zero, c) else None
  end.

Definition dial (env : Env) (unixSocketPath : string) (timeout : nat)
    (host : Host) : result ClientConn :=
  match grpc_Dial env unixSocketPath timeout host with
  | Fail err => Fail err
  | Ok c => Ok c
  end.

Definition cleanup (env : Env) (m : RdmaSriovDevPlugin) (host : Host)
  : option error * Host :=
  let '(err, host) := os_Remove env (socket m) host in
  match err with
  | Some e => if negb (os_IsNotExist e) then (Some e, host) else (None, host)
  | None => (None, host)
  end.

Definition Start (env : Env) (m : RdmaSriovDevPlugin) (host : Host)
  : option error * RdmaSriovDevPlugin * Host :=
  let '(err, host) := cleanup env m host in
  match err with
  | Some e => (Some e, m, host)
  | None =>
      let '(r, host) := net_Listen env (socket m) host in
      match r with
      | Fail e => (Some e, m, host)
      | Ok sock =>
          let '(srv, host) := grpc_Serve grpc_NewServer sock host in
          let m := set_server m (Some srv) in
          match dial env (socket m) 5 host with
          | Fail e => (Some e, m, host)
          | Ok conn => (None, m, host)
          end
      end
  end.

Definition Stop (env : Env) (m : RdmaSriovDevPlugin) (host : Host)
  : completion (option error * RdmaSriovDevPlugin * Host) :=
  match server m with
  | None => Ret (None, m, host)
  | Some srv =>
      let host := grpc_Stop srv host in
      let m := set_server m None in
      match chan_close (stop m) with
      | None => Panic
      | Some c =>
          let m := set_stop m c in
          let '(err, host) := cleanup env m host in
          Ret (err, m, host)
      end
  end.

Definition Register (env : Env) (m : RdmaSriovDevPlugin)
    (kubeletEndpoint resourceName : string) (host : Host)
  : option error * Host :=
  match dial env kubeletEndpoint 5 host with
  | Fail err => (Some err, host)
  | Ok conn =>
      let reqt := {| req_Version := pluginapi.Version;
                     req_Endpoint := path_Base (socket m);
                     req_ResourceName := resourceName |} in
      let '(err, host) := client_Register env reqt host in
      match err with
      | Some e => (Some e, host)
      | None => (None, host)
      end
  end.

(** [Serve] drops what the compensating [Stop] returns, but not its panic. *)
Definition Serve (env : Env) (m : RdmaSriovDevPlugin) (host : Host)
  : completion (option error * RdmaSriovDevPlugin * Host) :=
  let '(err, m, host) := Start env m host in
  match err with
  | Some e => Ret (Some e, m, host)
  | None =>
      let '(err, host) :=
        Register env m pluginapi.KubeletSocket (resourceName m) host in
      match err with
      | Some e =>
          match Stop env m host with
          | Panic => Panic
          | Ret (_, m, host) => Ret (Some e, m, host)
          end
      | None => Ret (None, m, host)
      end
  end.

(** ** ListAndWatch *)

(** The response holds the slice [m.devs] itself, that is, pointers. *)
Record ListAndWatchResponse : Type := mkListAndWatchResponse {
  lw_Devices : list ptr
}.

(** What goes on the wire for a response: the devices as they are in the
    store when [Send] is called. *)
Definition marshal (h : Heap) (msg : ListAndWatchResponse)
  : list (option Device) :=
  deref h <$> lw_Devices msg.

(** The server side of the stream.  [script] holds what the transport will
    answer to the coming sends (none left means success); [sent] records each
    call of [Send], with the message and the answer. *)
Record ListAndWatchServer : Type := mkStream {
  script : list (option error);
  sent : list (list (option Device) * option error)
}.

Definition Send (msg : ListAndWatchResponse) (h : Heap) (s : ListAndWatchServer)
  : option error * ListAndWatchServer :=
  let r := default None (head (script s)) in
  (r, {| script := tail (script s); sent := sent s ++ [(marshal h msg, r)] |}).

Arguments Send : simpl never.

(** The messages emitted on a stream, in order. *)
Definition emissions (s : ListAndWatchServer) : list (list (option Device)) :=
  (sent s).*1.

(** A stream that answers from the script [sc]: the k-th call of [Send] got
    the k-th answer of [sc], success once [sc] is used up. *)
Definition answers_from (sc : list (option error)) (s : ListAndWatchServer) : Prop :=
  script s = drop (length (sent s)) sc
  ∧ (sent s).*2 = (λ k, default None (sc !! k)) <$> seq 0 (length (sent s)).

(** What the [select] of the loop delivers. *)
Inductive event : Type :=
  | RecvStop
  | RecvHealth (d : ptr).

(** Where a call is: blocked in its [select], returned, or panicked. *)
Inductive status : Type :=
  | Waiting
  | Returned (err : option error)
  | Panicked.

(** One turn of the [for { select { ... } }] loop. *)
Definition select_case (m : RdmaSriovDevPlugin) (ev : event)
    (h : Heap) (s : ListAndWatchServer) : Heap * ListAndWatchServer * status :=
  match ev with
  | RecvStop => (h, s, Returned None)
  | RecvHealth d =>
      match set_Health d pluginapi.Unhealthy h with
      | None => (h, s, Panicked)
      | Some h =>
          let '(_, s) := Send {| lw_Devices := devs m |} h s in
          (h, s, Waiting)
      end
  end.

Fixpoint watch_loop (m : RdmaSriovDevPlugin) (evs : list event)
    (h : Heap) (s : ListAndWatchServer) : Heap * ListAndWatchServer * status :=
  match evs with
  | [] => (h, s, Waiting)
  | ev :: evs =>
      let '(h, s, st) := select_case m ev h s in
      match st with
      | Waiting => watch_loop m evs h s
      | _ => (h, s, st)
      end
  end.

(** [ListAndWatch] run against the events [evs] that its [select] delivers.
    The result of both [Send]s is dropped, as in the source. *)
Definition ListAndWatch (m : RdmaSriovDevPlugin) (s : ListAndWatchServer)
    (evs : list event) (h : Heap) : Heap * ListAndWatchServer * status :=
  let '(_, s) := Send {| lw_Devices := devs m |} h s in
  watch_loop m evs h s.

(** [unhealthy]: the caller blocks in the send on [m.health]. *)
Definition unhealthy (m : RdmaSriovDevPlugin) (dev : ptr)
  : option RdmaSriovDevPlugin :=
  set_health m <$> chan_send dev (health m).

(** ** The plugin as a transition system *)

Record Call : Type := mkCall {
  call_stream : ListAndWatchServer;
  call_status : status
}.

Record System : Type := mkSystem {
  plugin : RdmaSriovDevPlugin;
  heap : Heap;
  host : Host;
  calls : list Call
}.

(** The operations of the plugin.  A [ListAndWatch] call is long-lived, so it
    is split into its start and the turns of its loop, which interleave with
    everything else. *)
Inductive op : Type :=
  | OpStart (env : Env)
  | OpStop (env : Env)
  | OpServe (env : Env)
  | OpRegister (env : Env) (kubeletEndpoint resourceName : string)
  | OpAllocate (r : option AllocateRequest)
  | OpGetDevicePluginOptions
  | OpPreStartContainer
  | OpUnhealthy (dev : ptr)
  | OpListAndWatch (script : list (option error))
  | OpSelectStop (i : nat)
  | OpSelectHealth (i : nat).

Definition turn (i : nat) (ev : event) (m : RdmaSriovDevPlugin) (sys : System)
  : option System :=
  match calls sys !! i with
  | Some {| call_stream := s; call_status := Waiting |} =>
      match select_case m ev (heap sys) s with
      | (_, _, Panicked) => None
      | (h, s, st) =>
          Some {| plugin := m; heap := h; host := host sys;
                  calls := <[i := {| call_stream := s; call_status := st |}]>
                             (calls sys) |}
      end
  | _ => None
  end.

(** One operation; [None] when it is not enabled (a receive that would block,
    a call that is not waiting) or when it panics. *)
Definition step (o : op) (sys : System) : option System :=
  let m := plugin sys in
  match o with
  | OpStart env =>
      let '(_, m, host) := Start env m (host sys) in
      Some {| plugin := m; heap := heap sys; host := host; calls := calls sys |}
  | OpStop env =>
      match Stop env m (host sys) with
      | Panic => None
      | Ret (_, m, host) =>
          Some {| plugin := m; heap := heap sys; host := host; calls := calls sys |}
      end
  | OpServe env =>
      match Serve env m (host sys) with
      | Panic => None
      | Ret (_, m, host) =>
          Some {| plugin := m; heap := heap sys; host := host; calls := calls sys |}
      end
  | OpRegister env kubeletEndpoint resourceName =>
      let '(_, host) := Register env m kubeletEndpoint resourceName (host sys) in
      Some {| plugin := m; heap := heap sys; host := host; calls := calls sys |}
  | OpAllocate r => let _ := Allocate r in Some sys
  | OpGetDevicePluginOptions => let _ := GetDevicePluginOptions in Some sys
  | OpPreStartContainer => let _ := PreStartContainer in Some sys
  | OpUnhealthy dev =>
      m ← unhealthy m dev;
      Some {| plugin := m; heap := heap sys; host := host sys; calls := calls sys |}
  | OpListAndWatch script =>
      let '(h, s, st) :=
        ListAndWatch m {| script := script; sent := [] |} [] (heap sys) in
      Some {| plugin := m; heap := h; host := host sys;
              calls := calls sys ++ [{| call_stream := s; call_status := st |}] |}
  | OpSelectStop i =>
      '(_, c) ← chan_recv () (stop m);
      turn i RecvStop (set_stop m c) sys
  | OpSelectHealth i =>
      '(d, c) ← chan_recv None (health m);
      turn i (RecvHealth d) (set_health m c) sys
  end.

Fixpoint run (ops : list op) (sys : System) : option System :=
  match ops with
  | [] => Some sys
  | o :: ops => sys ← step o sys; run ops sys
  end.

(** The in-memory device list as a reader sees it. *)
Definition inventory (m : RdmaSriovDevPlugin) (h : Heap) : list (option Device) :=
  deref h <$> devs m.

(** The store after each of the health signals [ds] has been consumed, in
    order; it stops at a signal that cannot be written through. *)
Fixpoint heaps_after (ds : list ptr) (h : Heap) : list Heap :=
  match ds with
  | [] => []
  | d :: ds =>
      match set_Health d pluginapi.Unhealthy h with
      | Some h' => h' :: heaps_after ds h'
      | None => []
      end
  end.

(** The record the builder makes for an identifier. *)
Definition fresh_device (id : string) : Device :=
  {| ID := id; Health := pluginapi.Healthy |}.

(** The identifiers of the inventory, in order. *)
Definition inventory_ids (m : RdmaSriovDevPlugin) (h : Heap) : list string :=
  omap (λ p, ID <$> deref h p) (devs m).

(** How one device may differ between an earlier and a later state: same
    identifier, and the health either kept or gone from Healthy to
    Unhealthy. *)
Definition degrades (d d' : Device) : Prop :=
  ID d' = ID d ∧
  (Health d' = Health d ∨
   (Health d = pluginapi.Healthy ∧ Health d' = pluginapi.Unhealthy)).

(** How the store may differ between an earlier and a later state: no cell
    is lost, no identifier changes, and a health that changes has become
    Unhealthy. *)
Definition heap_evolves (h h' : Heap) : Prop :=
  ∀ l d, h !! l = Some d →
    ∃ d', h' !! l = Some d' ∧ ID d' = ID d
          ∧ (Health d' = Health d ∨ Health d' = pluginapi.Unhealthy).

(** The health signals a call receives before its first stop signal. *)
Fixpoint signals_before_stop (evs : list event) : list ptr :=
  match evs with
  | [] => []
  | RecvStop :: _ => []
  | RecvHealth d :: evs => d :: signals_before_stop evs
  end.

Fixpoint received_stop (evs : list event) : bool :=
  match evs with
  | [] => false
  | RecvStop :: _ => true
  | RecvHealth _ :: evs => received_stop evs
  end.

(** A device once it has been signalled. *)
Definition degraded (d : Device) : Device :=
  {| ID := ID d; Health := pluginapi.Unhealthy |}.

(** The operations of one hand-off per signal: a caller enters [unhealthy]
    and the call [i] takes the health case. *)
Definition handoffs (i : nat) (ds : list ptr) : list op :=
  ds ≫= λ d, [OpUnhealthy d; OpSelectHealth i].

(** Whether an operation is a turn of a call through the health case. *)
Definition takes_health_case (o : op) : bool :=
  match o with
  | OpSelectHealth _ => true
  | _ => false
  end.

(** ** A test double for the hardware

    A host with two working physical functions, [ens1f0] with four virtual
    functions and [ens1f1] with two, and three devices that fail at each of
    the three configuration steps.  The [World] is the log of the successful
    configuration calls. *)
Module FakeHost.
Definition World : Type := list string.

Definition vfs_of (pf : string) : list nat :=
  if decide (pf = "ens1f0") then [0; 1; 2; 3]
  else if decide (pf = "ens1f1") then [0; 1]
  else [].

Definition digit (n : nat) : string :=
  String (ascii_of_nat (48 + n)) "".

#[global] Instance sriovnet : Sriovnet World string nat := {|
  EnableSriov name w :=
    if decide (name = "no-sriov") then (Some (Err "sriov not supported"), w)
    else (None, w ++ ["enable " +:+ name]);
  GetPfNetdevHandle name w :=
    if decide (name = "no-handle") then (Fail (Err "no such netdev"), w)
    else (Ok name, w);
  ConfigVfs pfHandle privileged w :=
    if decide (pfHandle = "no-vfs") then (Some (Err "cannot set vf mac"), w)
    else (None, w ++ ["config " +:+ pfHandle]);
  handle_List pfHandle w := vfs_of pfHandle;
  GetVfNetdevName pfHandle vf w := (pfHandle +:+ "v" +:+ digit vf, w);
  GetVfDefaultMacAddr vfNetdevName w :=
    if decide (vfNetdevName = "ens1f1v1") then (("", Some (Err "no address")), w)
    else (("mac:" +:+ vfNetdevName, None), w)
|}.

(** An environment that refuses nothing. *)
Definition calm : Env :=
  {| unlink_refused _ := None; listen_refused _ := None;
     dial_refused _ := None; register_refused _ := None |}.

(** An environment in which the kubelet rejects the registration. *)
Definition rejecting : Env :=
  {| unlink_refused _ := None; listen_refused _ := None;
     dial_refused _ := None;
     register_refused _ := Some "unsupported version" |}.

(** A host on which only the kubelet listens. *)
Definition node : Host :=
  {| fs := {[pluginapi.KubeletSocket]};
     listening := {[pluginapi.KubeletSocket]};
     kubelet_log := [] |}.

(** An environment in which the probing dial of the plugin's own socket is
    refused. *)
Definition no_probe : Env :=
  {| unlink_refused _ := None; listen_refused _ := None;
     dial_refused target :=
       if decide (target = pluginapi.KubeletSocket) then None
       else Some "connection refused";
     register_refused _ := None |}.


(** [node] with a socket file left behind by an earlier run. *)
Definition node_stale : Host :=
  {| fs := {[pluginapi.KubeletSocket;
             pluginapi.DevicePluginPath +:+ RdmaSriovDpSocket]};
     listening := {[pluginapi.KubeletSocket]};
     kubelet_log := [] |}.

(** A host without a kubelet. *)
Definition lonely : Host :=
  {| fs := ∅; listening := ∅; kubelet_log := [] |}.

(** A configuration with a device that cannot be configured between two
    that can, and the plugin built from it on an empty store. *)
Definition config : UserConfig :=
  {| PfNetdevices := ["ens1f0"; "no-sriov"; "ens1f1"] |}.

Definition built : RdmaSriovDevPlugin * World * Heap :=
  NewRdmaSriovDevPlugin config [] [].

Definition plugin0 : RdmaSriovDevPlugin := built.1.1.
Definition world0 : World := built.1.2.
Definition heap0 : Heap := built.2.

Definition sys0 : System :=
  {| plugin := plugin0; heap := heap0; host := node; calls := [] |}.

(** The plugin once started on [node], and the host it then runs on. *)
Definition started : RdmaSriovDevPlugin := (Start calm plugin0 node).1.2.
Definition node_started : Host := (Start calm plugin0 node).2.

(** What [Stop] leaves of a plugin and a host; the arguments themselves
    when it panics. *)
Definition after_Stop (env : Env) (m : RdmaSriovDevPlugin) (host : Host)
  : RdmaSriovDevPlugin * Host :=
  match Stop env m host with
  | Ret (_, m', host') => (m', host')
  | Panic => (m, host)
  end.

(** The state a run ends in; the initial state when it does not run. *)
Definition state_after (ops : list op) (sys : System) : System :=
  default sys (run ops sys).
End FakeHost.

(** * Properties *)

(** ** Allocate *)

Lemma Allocate_loop_fill (n : nat) (pre : list (option ContainerAllocateResponse)) :
  foldl Allocate_body (pre ++ replicate n None) (seq (length pre) n)
  = pre ++ replicate n
      (Some {| Devices := [Some {| ContainerPath := RdmaDevices;
                                   HostPath := RdmaDevices;
                                   Permissions := "rwm" |}] |}).
Proof.
  revert pre. induction n as [|n IH]; intros pre; simpl; [done|].
  unfold Allocate_body at 2. simpl.
  rewrite insert_app_r_alt by lia. rewrite Nat.sub_diag. simpl.
  set (x := Some _).
  change (pre ++ x :: ?l) with (pre ++ [x] ++ l).
  rewrite app_assoc.
  replace (S (length pre)) with (length (pre ++ [x])).
  2:{ rewrite length_app. simpl. lia. }
  rewrite IH. by rewrite <- app_assoc.
Qed.

(** C2.  For a batch of k container requests (k = 0 and the nil request
    included) [Allocate] returns a nil error and exactly k container
    responses, each with the single device spec that maps /dev/infiniband to
    /dev/infiniband with permissions "rwm".  The response depends on the
    request through k only: the requested device identifiers play no part. *)
Theorem Allocate_grants_device_directory (r : option AllocateRequest) :
  Allocate r =
    ({| ContainerResponses :=
          replicate (length (GetContainerRequests r))
            (Some {| Devices := [Some {| ContainerPath := "/dev/infiniband";
                                         HostPath := "/dev/infiniband";
                                         Permissions := "rwm" |}] |}) |},
     None).
Proof.
  unfold Allocate. do 2 f_equal.
  apply (Allocate_loop_fill (length (GetContainerRequests r)) []).
Qed.

(** ** The store *)

Lemma deref_fresh_cells (h l : Heap) :
  deref (h ++ l) <$> (Some <$> seq (length h) (length l)) = Some <$> l.
Proof.
  revert h. induction l as [|d l IH]; intros h; simpl; [done|].
  rewrite (list_lookup_middle h l d (length h) eq_refl). simpl. f_equal.
  specialize (IH (h ++ [d])).
  rewrite length_app, Nat.add_1_r, <- app_assoc in IH. exact IH.
Qed.

Lemma ids_fresh_cells (h l : Heap) :
  omap (λ p, ID <$> deref (h ++ l) p) (Some <$> seq (length h) (length l))
  = ID <$> l.
Proof.
  revert h. induction l as [|d l IH]; intros h; simpl; [done|].
  rewrite (list_lookup_middle h l d (length h) eq_refl). simpl. f_equal.
  specialize (IH (h ++ [d])).
  rewrite length_app, Nat.add_1_r, <- app_assoc in IH. exact IH.
Qed.

Lemma NoDup_fresh_cells (j n : nat) : NoDup (Some <$> seq j n : list ptr).
Proof. apply NoDup_fmap_2; [apply _ | apply NoDup_seq]. Qed.

(** ** The inventory builder *)

Section BuilderFacts.
Context {World PfNetdevHandle VfObj : Type}.
Context `{!Sriovnet World PfNetdevHandle VfObj}.

Lemma vf_ids_length (pfHandle : PfNetdevHandle) (vfs : list VfObj) (w : World) :
  length (vf_ids pfHandle vfs w).1 = length vfs.
Proof.
  revert w. induction vfs as [|vf vfs IH]; intros w; simpl; [done|].
  destruct (GetVfNetdevName pfHandle vf w) as [n w1].
  destruct (GetVfDefaultMacAddr n w1) as [[id e] w2].
  specialize (IH w2). destruct (vf_ids pfHandle vfs w2) as [ids w3].
  simpl in *. by rewrite IH.
Qed.

(** The inner loop appends one fresh healthy record per virtual function. *)
Lemma vf_loop_spec (pfHandle : PfNetdevHandle) (vfs : list VfObj)
    (devs : list ptr) (w : World) (h : Heap) :
  vf_loop pfHandle vfs devs w h =
    (devs ++ (Some <$> seq (length h) (length (vf_ids pfHandle vfs w).1)),
     (vf_ids pfHandle vfs w).2,
     h ++ (fresh_device <$> (vf_ids pfHandle vfs w).1)).
Proof.
  revert devs w h. induction vfs as [|vf vfs IH]; intros devs w h; simpl.
  - by rewrite !app_nil_r.
  - destruct (GetVfNetdevName pfHandle vf w) as [n w1].
    destruct (GetVfDefaultMacAddr n w1) as [[id e] w2].
    rewrite IH. destruct (vf_ids pfHandle vfs w2) as [ids w3]. simpl.
    rewrite length_app, <- !app_assoc. simpl.
    by rewrite Nat.add_1_r.
Qed.

Lemma ndev_loop_spec (ndevs : list string) (devs : list ptr) (w : World) (h : Heap) :
  ndev_loop ndevs devs w h =
    (devs ++ (Some <$> seq (length h) (length (concat (contributions ndevs w)))),
     world_after ndevs w,
     h ++ (fresh_device <$> concat (contributions ndevs w))).
Proof.
  revert devs w h. induction ndevs as [|ndev ndevs IH]; intros devs w h; simpl.
  - by rewrite !app_nil_r.
  - unfold contribution.
    destruct (configSriov ndev w) as [[pfHandle|e] w1]; simpl.
    + rewrite vf_loop_spec.
      destruct (vf_ids pfHandle (handle_List pfHandle w1) w1) as [ids w2] eqn:E.
      simpl. rewrite IH.
      rewrite !length_app, length_fmap, seq_app, fmap_app, <- !app_assoc.
      by rewrite fmap_app.
    + by rewrite IH.
Qed.

Lemma NewRdmaSriovDevPlugin_spec (config : UserConfig) (w : World) (h : Heap) :
  NewRdmaSriovDevPlugin config w h =
    ({| resourceName := RdmaSriovResourceName;
        socket := pluginapi.DevicePluginPath +:+ RdmaSriovDpSocket;
        devs := Some <$> seq (length h)
                  (length (concat (contributions (PfNetdevices config) w)));
        stop := make_chan;
        health := make_chan;
        server := None |},
     world_after (PfNetdevices config) w,
     h ++ (fresh_device <$> concat (contributions (PfNetdevices config) w))).
Proof.
  unfold NewRdmaSriovDevPlugin.
  destruct (decide (length (PfNetdevices config) = 0)) as [E|E].
  - apply nil_length_inv in E. rewrite E. simpl. by rewrite app_nil_r.
  - by rewrite ndev_loop_spec.
Qed.

(** What a reader of the freshly built inventory sees. *)
Lemma inventory_built (config : UserConfig) (w : World) (h : Heap) :
  inventory (NewRdmaSriovDevPlugin config w h).1.1
            (NewRdmaSriovDevPlugin config w h).2
  = (λ id, Some {| ID := id; Health := pluginapi.Healthy |})
      <$> concat (contributions (PfNetdevices config) w).
Proof.
  rewrite NewRdmaSriovDevPlugin_spec. unfold inventory. simpl.
  pose proof (deref_fresh_cells h
                (fresh_device <$> concat (contributions (PfNetdevices config) w))) as D.
  rewrite length_fmap in D. rewrite D. by rewrite <- list_fmap_compose.
Qed.

Lemma contributions_counts (ndevs : list string) (w : World) :
  Forall2 (λ c ids, length ids = default 0 c)
    (vf_counts ndevs w) (contributions ndevs w).
Proof.
  revert w. induction ndevs as [|ndev ndevs IH]; intros w; simpl; [constructor|].
  specialize (IH (contribution ndev w).2).
  unfold contribution in *.
  destruct (configSriov ndev w) as [[pfHandle|e] w1]; simpl in *.
  - pose proof (vf_ids_length pfHandle (handle_List pfHandle w1) w1) as L.
    destruct (vf_ids pfHandle (handle_List pfHandle w1) w1) as [ids w2].
    constructor; [exact L | exact IH].
  - constructor; [done | exact IH].
Qed.

Lemma contributions_length (ndevs : list string) (w : World) :
  length (contributions ndevs w) = length ndevs.
Proof.
  revert w. induction ndevs as [|ndev ndevs IH]; intros w; simpl; [done|].
  destruct (contribution ndev w) as [ids w1]. simpl. by rewrite IH.
Qed.

Lemma length_concat_sum {A : Type} (ls : list (list A)) :
  length (concat ls) = sum_list (length <$> ls).
Proof.
  induction ls as [|l ls IH]; csimpl; [done|]. by rewrite length_app, IH.
Qed.

Lemma sum_counts (cs : list (option nat)) (ls : list (list string)) :
  Forall2 (λ c ids, length ids = default 0 c) cs ls →
  sum_list (length <$> ls) = sum_list (default 0 <$> cs).
Proof. induction 1 as [|c ids cs ls E _ IH]; csimpl; [done|]. by rewrite E, IH. Qed.

(** C3.  The builder handles the physical devices in the order of the
    configuration and each of them exactly once.  A device whose
    configuration fails (enabling SR-IOV, getting the handle, or configuring
    the virtual functions) adds nothing and the next one is handled; a
    device that succeeds adds one healthy record per virtual function of
    its handle.  The inventory is the concatenation, in order, of what the
    devices add, its length is the sum of the numbers of virtual functions
    of the devices that succeeded, and the empty list of names gives the
    empty inventory. *)
Theorem inventory_is_concatenation (config : UserConfig) (w : World) (h : Heap) :
  let names := PfNetdevices config in
  let m := (NewRdmaSriovDevPlugin config w h).1.1 in
  let h' := (NewRdmaSriovDevPlugin config w h).2 in
  inventory m h' = (λ id, Some {| ID := id; Health := pluginapi.Healthy |})
                     <$> concat (contributions names w)
  ∧ length (contributions names w) = length names
  ∧ Forall2 (λ c ids, length ids = default 0 c)
      (vf_counts names w) (contributions names w)
  ∧ length (devs m) = sum_list (default 0 <$> vf_counts names w)
  ∧ devs (NewRdmaSriovDevPlugin {| PfNetdevices := [] |} w h).1.1 = [].
Proof.
  intros names m h'. subst m h'. split; [apply inventory_built|].
  rewrite NewRdmaSriovDevPlugin_spec. simpl. fold names. split_and!.
  - apply contributions_length.
  - apply contributions_counts.
  - rewrite length_fmap, length_seq, length_concat_sum.
    apply sum_counts, contributions_counts.
  - done.
Qed.

(** C6, as amended.  The identifiers of the inventory are, in order, the
    strings that the MAC address lookup gave for the virtual functions of
    the devices that succeeded; so they are pairwise distinct exactly when
    those strings are.  The records themselves are always distinct cells. *)
Theorem inventory_ids_as_reported (config : UserConfig) (w : World) (h : Heap) :
  let names := PfNetdevices config in
  let m := (NewRdmaSriovDevPlugin config w h).1.1 in
  let h' := (NewRdmaSriovDevPlugin config w h).2 in
  inventory_ids m h' = concat (contributions names w)
  ∧ (NoDup (inventory_ids m h') ↔ NoDup (concat (contributions names w)))
  ∧ NoDup (devs m).
Proof.
  intros names m h'. subst m h'. rewrite NewRdmaSriovDevPlugin_spec. simpl.
  fold names.
  assert (inventory_ids
            {| resourceName := RdmaSriovResourceName;
               socket := pluginapi.DevicePluginPath +:+ RdmaSriovDpSocket;
               devs := Some <$> seq (length h) (length (concat (contributions names w)));
               stop := make_chan; health := make_chan; server := None |}
            (h ++ (fresh_device <$> concat (contributions names w)))
          = concat (contributions names w)) as E.
  { unfold inventory_ids. simpl.
    pose proof (ids_fresh_cells h (fresh_device <$> concat (contributions names w))) as D.
    rewrite length_fmap in D. rewrite D.
    rewrite <- list_fmap_compose. apply list_fmap_id. }
  split_and!; [exact E | by rewrite E | apply NoDup_fresh_cells].
Qed.
End BuilderFacts.

(** C6, as stated, fails: the builder does not deduplicate.  On the test
    host, listing [ens1f0] twice, with another device in between, gives an
    inventory in which each identifier of [ens1f0] occurs twice, in two
    distinct records. *)
Lemma inventory_ids_repeat :
  let config := {| PfNetdevices := ["ens1f0"; "no-sriov"; "ens1f0"] |} in
  let m := (NewRdmaSriovDevPlugin config ([] : FakeHost.World) []).1.1 in
  let h := (NewRdmaSriovDevPlugin config ([] : FakeHost.World) []).2 in
  inventory_ids m h
  = ["mac:ens1f0v0"; "mac:ens1f0v1"; "mac:ens1f0v2"; "mac:ens1f0v3";
     "mac:ens1f0v0"; "mac:ens1f0v1"; "mac:ens1f0v2"; "mac:ens1f0v3"]
  ∧ devs m !! 0 = Some (Some 0)
  ∧ devs m !! 4 = Some (Some 4)
  ∧ deref h (Some 0) = Some {| ID := "mac:ens1f0v0"; Health := pluginapi.Healthy |}
  ∧ deref h (Some 4) = Some {| ID := "mac:ens1f0v0"; Health := pluginapi.Healthy |}
  ∧ ¬ NoDup (inventory_ids m h).
Proof.
  split_and!; [by vm_compute | by vm_compute | by vm_compute
              | by vm_compute | by vm_compute |].
  vm_compute. intros N. apply NoDup_cons in N as [N _].
  apply N. do 3 right. left.
Qed.

(** ** Writing through a device pointer *)

Lemma set_Health_is_Some (d : ptr) (v : string) (h : Heap) :
  is_Some (deref h d) → is_Some (set_Health d v h).
Proof.
  destruct d as [l|]; simpl; [|by intros [? ?]].
  intros [x E]. rewrite E. by eexists.
Qed.

Lemma set_Health_length (d : ptr) (v : string) (h h' : Heap) :
  set_Health d v h = Some h' → length h' = length h.
Proof.
  destruct d as [l|]; simpl; [|done].
  destruct (h !! l); [|done]. intros [= <-]. apply length_insert.
Qed.

Lemma deref_set_Health_eq (d : ptr) (v : string) (h h' : Heap) :
  set_Health d v h = Some h' →
  ∃ x, deref h d = Some x ∧ deref h' d = Some {| ID := ID x; Health := v |}.
Proof.
  destruct d as [l|]; simpl; [|done].
  destruct (h !! l) as [x|] eqn:E; [|done]. intros [= <-].
  exists x. split; [done|].
  apply list_lookup_insert_eq. by eapply lookup_lt_Some.
Qed.

Lemma deref_set_Health_ne (d p : ptr) (v : string) (h h' : Heap) :
  set_Health d v h = Some h' → p ≠ d → deref h' p = deref h p.
Proof.
  destruct d as [l|]; simpl; [|done].
  destruct (h !! l) as [x|] eqn:E; [|done]. intros [= <-] N.
  destruct p as [l'|]; simpl; [|done].
  apply list_lookup_insert_ne. congruence.
Qed.

Lemma deref_set_Health_valid (d p : ptr) (v : string) (h h' : Heap) :
  set_Health d v h = Some h' → is_Some (deref h p) → is_Some (deref h' p).
Proof.
  intros S V. destruct (decide (p = d)) as [->|N].
  - destruct (deref_set_Health_eq _ _ _ _ S) as (x & _ & ->). by eexists.
  - by rewrite (deref_set_Health_ne _ _ _ _ _ S N).
Qed.

(** ** ListAndWatch *)

Lemma emissions_Send (msg : ListAndWatchResponse) (h : Heap) (s : ListAndWatchServer) :
  emissions (Send msg h s).2 = emissions s ++ [marshal h msg].
Proof. unfold emissions, Send. simpl. by rewrite fmap_app. Qed.

(** The equations of the loop. *)
Lemma watch_loop_stop (m : RdmaSriovDevPlugin) (evs : list event)
    (h : Heap) (s : ListAndWatchServer) :
  watch_loop m (RecvStop :: evs) h s = (h, s, Returned None).
Proof. done. Qed.

Lemma watch_loop_signal (m : RdmaSriovDevPlugin) (d : ptr) (evs : list event)
    (h h' : Heap) (s : ListAndWatchServer) :
  set_Health d pluginapi.Unhealthy h = Some h' →
  watch_loop m (RecvHealth d :: evs) h s
  = watch_loop m evs h' (Send {| lw_Devices := devs m |} h' s).2.
Proof. intros E. simpl. by rewrite E. Qed.

Lemma watch_loop_fault (m : RdmaSriovDevPlugin) (d : ptr) (evs : list event)
    (h : Heap) (s : ListAndWatchServer) :
  set_Health d pluginapi.Unhealthy h = None →
  watch_loop m (RecvHealth d :: evs) h s = (h, s, Panicked).
Proof. intros E. simpl. by rewrite E. Qed.

Lemma heaps_after_cons (d : ptr) (ds : list ptr) (h h' : Heap) :
  set_Health d pluginapi.Unhealthy h = Some h' →
  heaps_after (d :: ds) h = h' :: heaps_after ds h'.
Proof. intros E. simpl. by rewrite E. Qed.

(** A call only appends to its stream. *)
Lemma watch_loop_appends (m : RdmaSriovDevPlugin) (evs : list event)
    (h : Heap) (s : ListAndWatchServer) :
  ∃ more, emissions (watch_loop m evs h s).1.2 = emissions s ++ more.
Proof.
  revert h s. induction evs as [|ev evs IH]; intros h s.
  - exists []. by rewrite app_nil_r.
  - destruct ev as [|d].
    + exists []. by rewrite app_nil_r.
    + destruct (set_Health d pluginapi.Unhealthy h) as [h'|] eqn:E.
      * rewrite (watch_loop_signal _ _ _ _ _ _ E).
        destruct (IH h' (Send {| lw_Devices := devs m |} h' s).2) as [more ->].
        exists (marshal h' {| lw_Devices := devs m |} :: more).
        by rewrite emissions_Send, <- app_assoc.
      * rewrite (watch_loop_fault _ _ _ _ _ E).
        exists []. by rewrite app_nil_r.
Qed.

(** Signals through valid pointers never end the loop: one emission per
    signal, each of the store as the signal left it. *)
Lemma watch_loop_health (m : RdmaSriovDevPlugin) (ds : list ptr)
    (h : Heap) (s : ListAndWatchServer) :
  Forall (λ d, is_Some (deref h d)) ds →
  (watch_loop m (RecvHealth <$> ds) h s).2 = Waiting
  ∧ emissions (watch_loop m (RecvHealth <$> ds) h s).1.2
    = emissions s ++ (inventory m <$> heaps_after ds h)
  ∧ length (heaps_after ds h) = length ds.
Proof.
  revert h s. induction ds as [|d ds IH]; intros h s V.
  - simpl. by rewrite app_nil_r.
  - apply Forall_cons in V as [Vd V].
    destruct (set_Health_is_Some d pluginapi.Unhealthy h Vd) as [h' E].
    rewrite fmap_cons, (watch_loop_signal _ _ _ _ _ _ E).
    rewrite (heaps_after_cons _ _ _ _ E).
    assert (Forall (λ d0, is_Some (deref h' d0)) ds) as V'.
    { eapply Forall_impl; [exact V|]. intros p.
      by apply deref_set_Health_valid with (d := d) (v := pluginapi.Unhealthy). }
    destruct (IH h' (Send {| lw_Devices := devs m |} h' s).2 V') as (I1 & I2 & I3).
    split_and!; [exact I1 | | simpl; by rewrite I3].
    rewrite I2, emissions_Send, <- app_assoc. done.
Qed.

(** Each store of [heaps_after] is the one before it with the signalled
    device written. *)
Lemma heaps_after_step (ds : list ptr) (h hk' : Heap) (k : nat) (D : ptr) :
  heaps_after ds h !! k = Some hk' → ds !! k = Some D →
  ∃ hk, (h :: heaps_after ds h) !! k = Some hk
        ∧ set_Health D pluginapi.Unhealthy hk = Some hk'.
Proof.
  revert h k. induction ds as [|d ds IH]; intros h k; simpl; [done|].
  destruct (set_Health d pluginapi.Unhealthy h) as [h'|] eqn:E; [|done].
  destruct k as [|k]; simpl.
  - intros [= <-] [= <-]. by exists h.
  - intros H1 H2. destruct (IH h' k H1 H2) as (hk & L & S). by exists hk.
Qed.

Lemma ListAndWatch_unfold (m : RdmaSriovDevPlugin) (s : ListAndWatchServer)
    (evs : list event) (h : Heap) :
  ListAndWatch m s evs h
  = watch_loop m evs h (Send {| lw_Devices := devs m |} h s).2.
Proof. unfold ListAndWatch. by destruct (Send _ h s). Qed.

Lemma inventory_lookup (m : RdmaSriovDevPlugin) (h : Heap) (i : nat) (p : ptr) :
  devs m !! i = Some p → inventory m h !! i = Some (deref h p).
Proof. intros E. unfold inventory. by rewrite list_lookup_fmap, E. Qed.

Lemma inventory_length (m : RdmaSriovDevPlugin) (h : Heap) :
  length (inventory m h) = length (devs m).
Proof. unfold inventory. apply length_fmap. Qed.

(** C7.  On a fresh call the first message on the stream is the device list
    as it is in memory when the call is made, whatever the call goes on to
    receive; and it is sent before anything is received: a call that has
    received nothing yet has emitted exactly that message. *)
Theorem first_emission_is_snapshot (m : RdmaSriovDevPlugin)
    (sc : list (option error)) (evs : list event) (h : Heap) :
  head (emissions (ListAndWatch m {| script := sc; sent := [] |} evs h).1.2)
  = Some (inventory m h)
  ∧ emissions (ListAndWatch m {| script := sc; sent := [] |} [] h).1.2
    = [inventory m h].
Proof.
  rewrite !ListAndWatch_unfold. split; [|done].
  destruct (watch_loop_appends m evs h
              (Send {| lw_Devices := devs m |} h {| script := sc; sent := [] |}).2)
    as [more ->].
  by rewrite emissions_Send.
Qed.

(** C1.  Let a running call consume the health signals [ds], each for a
    device that exists.  The call keeps running, and has made exactly one
    emission per signal after the first snapshot.  For the k-th signal, for
    device D, the emission before it and the emission it causes are both the
    full device list; in the latter D is Unhealthy with its identifier kept
    and every entry other than D is as before.  If D was Unhealthy already,
    the emission it causes equals the one before it: still one emission, and
    nothing changed. *)
Theorem health_signal_emits_once (m : RdmaSriovDevPlugin)
    (sc : list (option error)) (h : Heap) (ds : list ptr) :
  Forall (λ d, is_Some (deref h d)) ds →
  let r := ListAndWatch m {| script := sc; sent := [] |} (RecvHealth <$> ds) h in
  r.2 = Waiting
  ∧ length (emissions r.1.2) = S (length ds)
  ∧ ∀ k D, ds !! k = Some D →
      ∃ before after,
        emissions r.1.2 !! k = Some before
        ∧ emissions r.1.2 !! S k = Some after
        ∧ length before = length (devs m)
        ∧ length after = length (devs m)
        ∧ (∀ i, devs m !! i = Some D →
             ∃ d, before !! i = Some (Some d)
                  ∧ after !! i
                    = Some (Some {| ID := ID d; Health := pluginapi.Unhealthy |}))
        ∧ (∀ i p, devs m !! i = Some p → p ≠ D → after !! i = before !! i)
        ∧ ((∀ i, devs m !! i = Some D →
              ∃ d, before !! i = Some (Some d)
                   ∧ Health d = pluginapi.Unhealthy) →
           after = before).
Proof.
  intros V r. subst r. rewrite ListAndWatch_unfold.
  set (s0 := (Send {| lw_Devices := devs m |} h {| script := sc; sent := [] |}).2).
  destruct (watch_loop_health m ds h s0 V) as (W1 & W2 & W3).
  assert (emissions (watch_loop m (RecvHealth <$> ds) h s0).1.2
          = inventory m <$> (h :: heaps_after ds h)) as EM.
  { rewrite W2. subst s0. by rewrite emissions_Send. }
  rewrite EM. split_and!; [exact W1 | |].
  { rewrite length_fmap. simpl. by rewrite W3. }
  intros k D HD.
  destruct (lookup_lt_is_Some_2 (heaps_after ds h) k) as [hk' Hk'].
  { rewrite W3. by eapply lookup_lt_Some. }
  destruct (heaps_after_step ds h hk' k D Hk' HD) as (hk & Hk & SH).
  assert (∀ i, devs m !! i = Some D →
            ∃ d, inventory m hk !! i = Some (Some d)
                 ∧ inventory m hk' !! i
                   = Some (Some {| ID := ID d; Health := pluginapi.Unhealthy |})) as AtD.
  { intros i Hi. destruct (deref_set_Health_eq _ _ _ _ SH) as (x & X1 & X2).
    exists x. by rewrite !(inventory_lookup _ _ _ _ Hi), X1, X2. }
  assert (∀ i p, devs m !! i = Some p → p ≠ D →
            inventory m hk' !! i = inventory m hk !! i) as Other.
  { intros i p Hi N. rewrite !(inventory_lookup _ _ _ _ Hi).
    by rewrite (deref_set_Health_ne _ _ _ _ _ SH N). }
  exists (inventory m hk), (inventory m hk').
  split_and!.
  - by rewrite list_lookup_fmap, Hk.
  - rewrite list_lookup_fmap. simpl. by rewrite Hk'.
  - apply inventory_length.
  - apply inventory_length.
  - exact AtD.
  - exact Other.
  - intros Idem. apply list_eq. intros i.
    destruct (devs m !! i) as [p|] eqn:Hi.
    + destruct (decide (p = D)) as [->|N]; [|by eapply Other].
      destruct (AtD i Hi) as (d & B & A). destruct (Idem i Hi) as (d' & B' & U).
      rewrite B in B'. injection B' as <-. rewrite A, B.
      destruct d as [id hl]. simpl in *. by subst hl.
    + rewrite !lookup_ge_None_2; [done | |];
        rewrite inventory_length; by apply lookup_ge_None_1.
Qed.

(** The loop does not look at its stream: on two streams it ends in the same
    store and status, having appended the same messages. *)
Lemma watch_loop_stream_irrelevant (m : RdmaSriovDevPlugin) (evs : list event)
    (h : Heap) (s1 s2 : ListAndWatchServer) :
  ∃ more,
    (watch_loop m evs h s1).1.1 = (watch_loop m evs h s2).1.1
    ∧ (watch_loop m evs h s1).2 = (watch_loop m evs h s2).2
    ∧ emissions (watch_loop m evs h s1).1.2 = emissions s1 ++ more
    ∧ emissions (watch_loop m evs h s2).1.2 = emissions s2 ++ more.
Proof.
  revert h s1 s2. induction evs as [|ev evs IH]; intros h s1 s2.
  - exists []. by rewrite !app_nil_r.
  - destruct ev as [|d].
    + exists []. by rewrite !app_nil_r.
    + destruct (set_Health d pluginapi.Unhealthy h) as [h'|] eqn:E.
      * rewrite !(watch_loop_signal _ _ _ _ _ _ E).
        destruct (IH h' (Send {| lw_Devices := devs m |} h' s1).2
                        (Send {| lw_Devices := devs m |} h' s2).2)
          as (more & I1 & I2 & I3 & I4).
        exists (marshal h' {| lw_Devices := devs m |} :: more).
        rewrite I3, I4, !emissions_Send, <- !app_assoc. done.
      * rewrite !(watch_loop_fault _ _ _ _ _ E).
        exists []. by rewrite !app_nil_r.
Qed.

(** The loop returns through the stop case only, and then with a nil error. *)
Lemma watch_loop_returned (m : RdmaSriovDevPlugin) (evs : list event)
    (h : Heap) (s : ListAndWatchServer) (err : option error) :
  (watch_loop m evs h s).2 = Returned err → err = None ∧ RecvStop ∈ evs.
Proof.
  revert h s. induction evs as [|ev evs IH]; intros h s; [done|].
  destruct ev as [|d].
  - rewrite watch_loop_stop. simpl. intros [= <-]. split; [done | left].
  - destruct (set_Health d pluginapi.Unhealthy h) as [h'|] eqn:E.
    + rewrite (watch_loop_signal _ _ _ _ _ _ E). intros R.
      destruct (IH _ _ R) as [-> I]. split; [done | by right].
    + by rewrite (watch_loop_fault _ _ _ _ _ E).
Qed.

Lemma answers_from_Send (sc : list (option error)) (msg : ListAndWatchResponse)
    (h : Heap) (s : ListAndWatchServer) :
  answers_from sc s → answers_from sc (Send msg h s).2.
Proof.
  intros [A1 A2]. unfold answers_from, Send. cbn [sent script snd].
  rewrite length_app. cbn [length]. rewrite Nat.add_1_r. split.
  - rewrite A1. change (tail ?l) with (drop 1 l).
    by rewrite drop_drop, Nat.add_1_r.
  - rewrite fmap_app, A2, seq_S, fmap_app. cbn [fmap list_fmap snd].
    do 3 f_equal.
    rewrite A1, head_lookup, lookup_drop. by rewrite Nat.add_0_r.
Qed.

Lemma answers_from_watch_loop (sc : list (option error)) (m : RdmaSriovDevPlugin)
    (evs : list event) (h : Heap) (s : ListAndWatchServer) :
  answers_from sc s → answers_from sc (watch_loop m evs h s).1.2.
Proof.
  revert h s. induction evs as [|ev evs IH]; intros h s A; [done|].
  destruct ev as [|d]; [done|].
  destruct (set_Health d pluginapi.Unhealthy h) as [h'|] eqn:E.
  - rewrite (watch_loop_signal _ _ _ _ _ _ E). by apply IH, answers_from_Send.
  - by rewrite (watch_loop_fault _ _ _ _ _ E).
Qed.

(** C10.  What the transport answers to a send is dropped.  Run on the same
    events with two scripts of answers, a call ends in the same store and the
    same status and has made the same emissions; every answer of the script,
    failures included, was given to a send of the call.  A call that has
    returned has returned nil, and one of the events it received was the stop
    signal. *)
Theorem ListAndWatch_drops_send_results (m : RdmaSriovDevPlugin)
    (sc sc' : list (option error)) (evs : list event) (h : Heap) :
  let r := ListAndWatch m {| script := sc; sent := [] |} evs h in
  let r' := ListAndWatch m {| script := sc'; sent := [] |} evs h in
  r.1.1 = r'.1.1
  ∧ r.2 = r'.2
  ∧ emissions r.1.2 = emissions r'.1.2
  ∧ (sent r.1.2).*2
    = (λ k, default None (sc !! k)) <$> seq 0 (length (sent r.1.2))
  ∧ ∀ err, r.2 = Returned err → err = None ∧ RecvStop ∈ evs.
Proof.
  intros r r'. subst r r'. rewrite !ListAndWatch_unfold.
  set (s := (Send _ h {| script := sc; sent := [] |}).2).
  set (s' := (Send _ h {| script := sc'; sent := [] |}).2).
  destruct (watch_loop_stream_irrelevant m evs h s s') as (more & I1 & I2 & I3 & I4).
  split_and!; [exact I1 | exact I2 | | |].
  - rewrite I3, I4. subst s s'. by rewrite !emissions_Send.
  - apply (answers_from_watch_loop sc). subst s.
    apply answers_from_Send. split; simpl; [by rewrite drop_0 | done].
  - intros err. apply watch_loop_returned.
Qed.

(** ** Lifecycle *)

(** [cleanup] touches the socket file only, and a nil result means that the
    file is gone. *)
Lemma cleanup_spec (env : Env) (m : RdmaSriovDevPlugin) (host : Host) :
  listening (cleanup env m host).2 = listening host
  ∧ kubelet_log (cleanup env m host).2 = kubelet_log host
  ∧ ((cleanup env m host).1 = None → socket m ∉ fs (cleanup env m host).2)
  ∧ (unlink_refused env (socket m) = None → (cleanup env m host).1 = None).
Proof.
  unfold cleanup, os_Remove.
  destruct (decide (socket m ∈ fs host)) as [I|N]; simpl.
  - destruct (unlink_refused env (socket m)) as [msg|]; simpl.
    + by split_and!.
    + split_and!; [done | done | | done].
      intros _ [_ O]%elem_of_difference. by apply O, elem_of_singleton.
  - by split_and!.
Qed.

Lemma Stop_started (env : Env) (m : RdmaSriovDevPlugin) (hostv : Host)
    (srv : grpc_Server) :
  server m = Some srv → closed (stop m) = false → sendq (stop m) = [] →
  Stop env m hostv =
    Ret ((cleanup env m (grpc_Stop srv hostv)).1,
         {| resourceName := resourceName m; socket := socket m; devs := devs m;
            stop := {| closed := true; sendq := [] |};
            health := health m; server := None |},
         (cleanup env m (grpc_Stop srv hostv)).2).
Proof.
  intros S C Q. unfold Stop, chan_close. rewrite S. simpl. rewrite C, Q.
  unfold cleanup. simpl. by destruct (os_Remove env (socket m) _) as [[e|] ?]; simpl;
    [destruct (negb (os_IsNotExist e))|].
Qed.

Lemma Stop_returned (env : Env) (m m1 : RdmaSriovDevPlugin) (hostv host1 : Host)
    (srv : grpc_Server) (err : option error) :
  server m = Some srv → Stop env m hostv = Ret (err, m1, host1) →
  closed (stop m) = false ∧ sendq (stop m) = [].
Proof.
  intros S. unfold Stop, chan_close. rewrite S. simpl.
  destruct (closed (stop m)); [done|].
  by destruct (sendq (stop m)).
Qed.

(** C5, as amended.  [Stop], called on a started plugin that has not been
    stopped before, returns after closing the stop channel, with the server
    cleared and stopped and the socket file cleaned up (gone when the result
    is nil, which it is unless the host refuses the unlink).  The health
    channel is exactly as it was: not closed, the blocked senders still
    blocked.  So afterwards every call that waits in its [select] can take
    the stop case, and can as well take the health case when a signal for an
    existing device is pending. *)
Theorem Stop_closes_stop_channel (env : Env) (m : RdmaSriovDevPlugin)
    (hostv : Host) (srv : grpc_Server) :
  server m = Some srv → closed (stop m) = false → sendq (stop m) = [] →
  ∃ err m' host',
    Stop env m hostv = Ret (err, m', host')
    ∧ m' = {| resourceName := resourceName m; socket := socket m; devs := devs m;
              stop := {| closed := true; sendq := [] |};
              health := health m; server := None |}
    ∧ listening host' = listening hostv ∖ list_to_set (listeners srv)
    ∧ (err = None → socket m ∉ fs host')
    ∧ (unlink_refused env (socket m) = None → err = None)
    ∧ ∀ h cs i s,
        cs !! i = Some {| call_stream := s; call_status := Waiting |} →
        is_Some (step (OpSelectStop i)
                   {| plugin := m'; heap := h; host := host'; calls := cs |})
        ∧ ∀ d q, sendq (health m) = d :: q → is_Some (deref h d) →
            is_Some (step (OpSelectHealth i)
                       {| plugin := m'; heap := h; host := host'; calls := cs |}).
Proof.
  intros S C Q. rewrite (Stop_started env m hostv srv S C Q).
  destruct (cleanup_spec env m (grpc_Stop srv hostv)) as (L & _ & F & U).
  eexists _, _, _.
  split_and!; [done | done | by rewrite L | exact F | exact U |].
  intros h cs i s Hi. split.
  - unfold step. cbn [plugin stop]. unfold chan_recv. cbn [sendq closed].
    simpl mbind. unfold turn. cbn [calls heap]. rewrite Hi.
    cbn [select_case]. by eexists.
  - intros d q Hq [x Hx].
    unfold step. cbn [plugin health]. unfold chan_recv. rewrite Hq.
    simpl mbind. unfold turn. cbn [calls heap]. rewrite Hi.
    cbn [select_case].
    destruct (set_Health_is_Some d pluginapi.Unhealthy h (ex_intro _ x Hx))
      as [h' ->].
    destruct (Send _ h' s) as [r s']. by eexists.
Qed.

(** C8.  After a first [Stop] of a started plugin that returned nil, the
    socket file does not exist and the stop channel is closed; a second
    [Stop] returns nil and changes nothing, so the channel is not closed
    again.  [Stop] on a plugin whose server is nil, as it is when the plugin
    was never started, returns nil and changes nothing. *)
Theorem Stop_twice (env env' : Env) (m m1 : RdmaSriovDevPlugin)
    (hostv host1 : Host) (srv : grpc_Server) :
  server m = Some srv →
  Stop env m hostv = Ret (None, m1, host1) →
  (socket m ∉ fs host1)
  ∧ closed (stop m1) = true
  ∧ Stop env' m1 host1 = Ret (None, m1, host1)
  ∧ ∀ m0 host0,
      Stop env (set_server m0 None) host0 = Ret (None, set_server m0 None, host0).
Proof.
  intros S R. destruct (Stop_returned _ _ _ _ _ _ _ S R) as [C Q].
  rewrite (Stop_started env m hostv srv S C Q) in R.
  injection R as R1 R2 R3. subst m1 host1.
  destruct (cleanup_spec env m (grpc_Stop srv hostv)) as (_ & _ & F & _).
  split_and!; [by apply F | done | done | done].
Qed.

(** [Start] changes the server field only, never talks to the kubelet, and
    on success leaves a server on the plugin's socket. *)
Lemma Start_spec (env : Env) (m : RdmaSriovDevPlugin) (hostv : Host) :
  let r := Start env m hostv in
  kubelet_log r.2 = kubelet_log hostv
  ∧ resourceName r.1.2 = resourceName m
  ∧ socket r.1.2 = socket m
  ∧ devs r.1.2 = devs m
  ∧ stop r.1.2 = stop m
  ∧ health r.1.2 = health m
  ∧ (r.1.1 = None → server r.1.2 = Some {| listeners := [socket m] |}).
Proof.
  unfold Start.
  destruct (cleanup_spec env m hostv) as (_ & K & _ & _).
  destruct (cleanup env m hostv) as [[e|] h1]; simpl in *; [done|].
  unfold net_Listen.
  destruct (decide (socket m ∈ fs h1)); simpl; [done|].
  destruct (listen_refused env (socket m)); simpl; [done|].
  unfold dial, grpc_Dial. simpl.
  destruct (decide (socket m ∈ listening h1 ∪ {[socket m]})); simpl; [|done].
  by destruct (dial_refused env (socket m)).
Qed.

Lemma Register_spec (env : Env) (m : RdmaSriovDevPlugin)
    (kubeletEndpoint name : string) (hostv : Host) :
  fs (Register env m kubeletEndpoint name hostv).2 = fs hostv
  ∧ listening (Register env m kubeletEndpoint name hostv).2 = listening hostv.
Proof.
  unfold Register, dial, grpc_Dial, client_Register.
  destruct (decide (kubeletEndpoint ∈ listening hostv)); simpl; [|done].
  destruct (dial_refused env kubeletEndpoint); simpl; [done|].
  by destruct (register_refused env _).
Qed.

(** C9.  On a plugin that has not been stopped before: when [Start] fails,
    [Serve] returns its error and the kubelet has received nothing; when
    [Start] succeeds and the registration fails, [Serve] runs [Stop] on the
    started plugin and returns the registration error, leaving the server
    cleared, nothing listening on the socket, and the socket file removed
    unless the host refuses the unlink; when both succeed it returns nil. *)
Theorem Serve_compensates (env : Env) (m : RdmaSriovDevPlugin) (hostv : Host) :
  closed (stop m) = false → sendq (stop m) = [] →
  match Start env m hostv with
  | (Some e, m1, h1) =>
      Serve env m hostv = Ret (Some e, m1, h1)
      ∧ kubelet_log h1 = kubelet_log hostv
  | (None, m1, h1) =>
      match Register env m1 pluginapi.KubeletSocket (resourceName m1) h1 with
      | (Some e, h2) =>
          ∃ err m3 h3,
            Stop env m1 h2 = Ret (err, m3, h3)
            ∧ Serve env m hostv = Ret (Some e, m3, h3)
            ∧ server m3 = None
            ∧ closed (stop m3) = true
            ∧ (socket m ∉ listening h3)
            ∧ (unlink_refused env (socket m) = None → socket m ∉ fs h3)
      | (None, h2) => Serve env m hostv = Ret (None, m1, h2)
      end
  end.
Proof.
  intros C Q. pose proof (Start_spec env m hostv) as SS.
  unfold Serve.
  destruct (Start env m hostv) as [[[e|] m1] h1]; simpl in SS.
  { by destruct SS as (K & _). }
  destruct SS as (_ & _ & Sk & _ & St & _ & Srv). specialize (Srv eq_refl).
  pose proof (Register_spec env m1 pluginapi.KubeletSocket (resourceName m1) h1) as RS.
  destruct (Register env m1 pluginapi.KubeletSocket (resourceName m1) h1)
    as [[e|] h2]; simpl in RS; [|done].
  assert (closed (stop m1) = false) as C1 by (by rewrite St).
  assert (sendq (stop m1) = []) as Q1 by (by rewrite St).
  rewrite (Stop_started env m1 h2 _ Srv C1 Q1).
  destruct (cleanup_spec env m1 (grpc_Stop {| listeners := [socket m] |} h2))
    as (L & _ & F & U).
  eexists _, _, _. split_and!; [done | done | done | done | |].
  - rewrite L. simpl. intros [_ O]%elem_of_difference.
    apply O, elem_of_union_l. by apply elem_of_singleton.
  - rewrite Sk in F, U. intros R. by apply F, U.
Qed.

(** ** The invariant of the inventory *)

Lemma heap_evolves_refl (h : Heap) : heap_evolves h h.
Proof. intros l d E. exists d. auto. Qed.

Lemma heap_evolves_trans (h1 h2 h3 : Heap) :
  heap_evolves h1 h2 → heap_evolves h2 h3 → heap_evolves h1 h3.
Proof.
  intros E12 E23 l d L.
  destruct (E12 l d L) as (d2 & L2 & I2 & H2).
  destruct (E23 l d2 L2) as (d3 & L3 & I3 & H3).
  exists d3. split_and!; [done | congruence |].
  destruct H3 as [H3|H3]; [|by right].
  destruct H2 as [H2|H2]; [left | right]; congruence.
Qed.

Lemma set_Health_evolves (d : ptr) (h h' : Heap) :
  set_Health d pluginapi.Unhealthy h = Some h' → heap_evolves h h'.
Proof.
  destruct d as [l|]; simpl; [|done].
  destruct (h !! l) as [x|] eqn:E; [|done]. intros [= <-] l' d' L.
  destruct (decide (l = l')) as [<-|N].
  - rewrite list_lookup_insert_eq by (by eapply lookup_lt_Some).
    eexists. split; [done|]. simpl. split; [congruence | by right].
  - rewrite list_lookup_insert_ne by done. exists d'. auto.
Qed.

Lemma select_case_evolves (m : RdmaSriovDevPlugin) (ev : event)
    (h : Heap) (s : ListAndWatchServer) :
  heap_evolves h (select_case m ev h s).1.1.
Proof.
  destruct ev as [|d]; simpl; [apply heap_evolves_refl|].
  destruct (set_Health d pluginapi.Unhealthy h) as [h'|] eqn:E; simpl.
  - by eapply set_Health_evolves.
  - apply heap_evolves_refl.
Qed.

Lemma Stop_devs (env : Env) (m m' : RdmaSriovDevPlugin) (hostv host' : Host)
    (err : option error) :
  Stop env m hostv = Ret (err, m', host') → devs m' = devs m.
Proof.
  unfold Stop. destruct (server m) as [srv|]; [|by intros [= <- <-]].
  simpl. destruct (chan_close (stop m)) as [c|]; [|done].
  destruct (cleanup env _ _) as [e host1]. by intros [= _ <- _].
Qed.

Lemma Serve_devs (env : Env) (m m' : RdmaSriovDevPlugin) (hostv host' : Host)
    (err : option error) :
  Serve env m hostv = Ret (err, m', host') → devs m' = devs m.
Proof.
  unfold Serve. pose proof (Start_spec env m hostv) as (_ & _ & _ & D & _).
  destruct (Start env m hostv) as [[[e|] m1] h1]; simpl in D.
  { by intros [= _ <- _]. }
  destruct (Register env m1 _ _ h1) as [[e|] h2]; [|by intros [= _ <- _]].
  destruct (Stop env m1 h2) as [[[e' m2] h3]|] eqn:S; [|done].
  intros [= _ <- _]. rewrite <- D. by eapply Stop_devs.
Qed.

Lemma turn_invariant (i : nat) (ev : event) (m : RdmaSriovDevPlugin)
    (sys sys' : System) :
  turn i ev m sys = Some sys' →
  plugin sys' = m ∧ heap_evolves (heap sys) (heap sys').
Proof.
  unfold turn. destruct (calls sys !! i) as [[s [| |]]|]; try done.
  pose proof (select_case_evolves m ev (heap sys) s) as E.
  destruct (select_case m ev (heap sys) s) as [[h s'] [| |]]; try done;
    by intros [= <-].
Qed.

(** No operation changes the device list, and the store only evolves. *)
Lemma step_invariant (o : op) (sys sys' : System) :
  step o sys = Some sys' →
  devs (plugin sys') = devs (plugin sys)
  ∧ heap_evolves (heap sys) (heap sys').
Proof.
  destruct o; cbn [step].
  - pose proof (Start_spec env (plugin sys) (host sys)) as (_ & _ & _ & D & _).
    destruct (Start env (plugin sys) (host sys)) as [[e m1] h1].
    intros [= <-]. split; [exact D | apply heap_evolves_refl].
  - destruct (Stop env (plugin sys) (host sys)) as [[[e m1] h1]|] eqn:S; [|done].
    intros [= <-]. split; [by eapply Stop_devs | apply heap_evolves_refl].
  - destruct (Serve env (plugin sys) (host sys)) as [[[e m1] h1]|] eqn:S; [|done].
    intros [= <-]. split; [by eapply Serve_devs | apply heap_evolves_refl].
  - destruct (Register env (plugin sys) _ _ (host sys)) as [e h1].
    intros [= <-]. split; [done | apply heap_evolves_refl].
  - intros [= <-]. split; [done | apply heap_evolves_refl].
  - intros [= <-]. split; [done | apply heap_evolves_refl].
  - intros [= <-]. split; [done | apply heap_evolves_refl].
  - unfold unhealthy. destruct (chan_send dev (health (plugin sys))); [|done].
    intros [= <-]. split; [done | apply heap_evolves_refl].
  - rewrite ListAndWatch_unfold. cbn [watch_loop].
    intros [= <-]. split; [done | apply heap_evolves_refl].
  - destruct (chan_recv () (stop (plugin sys))) as [[u c]|]; [|done]. simpl.
    intros T. destruct (turn_invariant _ _ _ _ _ T) as [-> E]. by split.
  - destruct (chan_recv None (health (plugin sys))) as [[d c]|]; [|done]. simpl.
    intros T. destruct (turn_invariant _ _ _ _ _ T) as [-> E]. by split.
Qed.

Lemma run_invariant (ops : list op) (sys sys' : System) :
  run ops sys = Some sys' →
  devs (plugin sys') = devs (plugin sys)
  ∧ heap_evolves (heap sys) (heap sys').
Proof.
  revert sys. induction ops as [|o ops IH]; intros sys; simpl.
  - intros [= <-]. split; [done | apply heap_evolves_refl].
  - destruct (step o sys) as [sys1|] eqn:S; [|done]. simpl. intros R.
    destruct (step_invariant _ _ _ S) as [D1 E1].
    destruct (IH _ R) as [D2 E2].
    split; [congruence | by eapply heap_evolves_trans].
Qed.

Section InventoryInvariant.
Context {World PfNetdevHandle VfObj : Type}.
Context `{!Sriovnet World PfNetdevHandle VfObj}.

(** C4.  Every device of the inventory is Healthy when the plugin is built.
    Along every run of operations of the plugin from there (the lifecycle
    calls, the RPCs, health signals, and the turns of any number of
    [ListAndWatch] calls, in any order), the device list stays the list of
    pointers it was built as, hence of the same length, and between an
    earlier state and a later one every device of the inventory keeps its
    identifier and either keeps its health or goes from Healthy to
    Unhealthy. *)
Theorem inventory_only_degrades (config : UserConfig) (w w' : World)
    (h0 h : Heap) (m : RdmaSriovDevPlugin) (hostv : Host)
    (ops1 ops2 : list op) (sys1 sys2 : System) :
  NewRdmaSriovDevPlugin config w h0 = (m, w', h) →
  run ops1 {| plugin := m; heap := h; host := hostv; calls := [] |} = Some sys1 →
  run ops2 sys1 = Some sys2 →
  Forall (λ od, ∃ id, od = Some {| ID := id; Health := pluginapi.Healthy |})
    (inventory m h)
  ∧ devs (plugin sys1) = devs m
  ∧ devs (plugin sys2) = devs m
  ∧ Forall2 (λ od od', ∃ d d', od = Some d ∧ od' = Some d' ∧ degrades d d')
      (inventory (plugin sys1) (heap sys1))
      (inventory (plugin sys2) (heap sys2)).
Proof.
  intros New R1 R2.
  pose proof (inventory_built config w h0) as I.
  rewrite New in I. cbn [fst snd] in I.
  destruct (run_invariant _ _ _ R1) as [D1 E1]. simpl in D1, E1.
  destruct (run_invariant _ _ _ R2) as [D2 E2]. rewrite D1 in D2.
  assert (Forall (λ od, ∃ id, od = Some {| ID := id; Health := pluginapi.Healthy |})
            (inventory m h)) as Init.
  { rewrite I. apply Forall_fmap, Forall_true. intros id. by exists id. }
  split_and!; [exact Init | exact D1 | exact D2 |].
  unfold inventory in *. rewrite D1, D2.
  apply Forall2_fmap, Forall_Forall2_diag.
  pose proof (proj1 (Forall_fmap (deref h) _ (devs m)) Init) as Cells.
  eapply Forall_impl; [exact Cells|].
  intros p [id Hp].
  destruct p as [l|]; [|done]. simpl in *.
  destruct (E1 l _ Hp) as (d1 & L1 & Id1 & H1).
  destruct (E2 l _ L1) as (d2 & L2 & Id2 & H2).
  exists d1, d2. split_and!; [done | done | ]. split; [done|].
  simpl in H1. destruct H2 as [H2|H2]; [by left|].
  destruct H1 as [H1|H1]; [right; by split | left; congruence].
Qed.
End InventoryInvariant.

(** ** Concrete runs *)

(** C5, as stated, fails.  A plugin with one healthy device is started, a
    [ListAndWatch] call is opened and a health signal for the device is
    pending when [Stop] is called.  After [Stop] the stop channel is closed,
    but the health channel is still open with the sender still blocked on it,
    and the call, which has not taken the stop case yet, can still take the
    health case: it consumes the signal, marks the device and emits. *)
Lemma Stop_leaves_health_channel_open :
  let m := {| resourceName := RdmaSriovResourceName;
              socket := pluginapi.DevicePluginPath +:+ RdmaSriovDpSocket;
              devs := [Some 0];
              stop := make_chan; health := make_chan; server := None |} in
  let sys0 := {| plugin := m;
                 heap := [{| ID := "mac:ens1f0v0"; Health := pluginapi.Healthy |}];
                 host := FakeHost.node; calls := [] |} in
  ∃ stopped final,
    run [OpStart FakeHost.calm; OpListAndWatch []; OpUnhealthy (Some 0);
         OpStop FakeHost.calm] sys0 = Some stopped
    ∧ server (plugin stopped) = None
    ∧ closed (stop (plugin stopped)) = true
    ∧ closed (health (plugin stopped)) = false
    ∧ sendq (health (plugin stopped)) = [Some 0]
    ∧ step (OpSelectHealth 0) stopped = Some final
    ∧ sendq (health (plugin final)) = []
    ∧ heap final = [{| ID := "mac:ens1f0v0"; Health := pluginapi.Unhealthy |}]
    ∧ (emissions ∘ call_stream <$> calls final)
      = [[ [Some {| ID := "mac:ens1f0v0"; Health := pluginapi.Healthy |}];
           [Some {| ID := "mac:ens1f0v0"; Health := pluginapi.Unhealthy |}] ]].
Proof.
  intros m sys0.
  destruct (run [OpStart FakeHost.calm; OpListAndWatch []; OpUnhealthy (Some 0);
                 OpStop FakeHost.calm] sys0) as [stopped|] eqn:R;
    [|by vm_compute in R].
  destruct (step (OpSelectHealth 0) stopped) as [final|] eqn:S.
  - exists stopped, final.
    vm_compute in R. injection R as <-. vm_compute in S. injection S as <-.
    by split_and!.
  - vm_compute in R. injection R as <-. by vm_compute in S.
Qed.

Example built_inventory :
  inventory_ids FakeHost.plugin0 FakeHost.heap0
  = ["mac:ens1f0v0"; "mac:ens1f0v1"; "mac:ens1f0v2"; "mac:ens1f0v3";
     "mac:ens1f1v0"; ""]
  ∧ vf_counts (PfNetdevices FakeHost.config) ([] : FakeHost.World)
    = [Some 4; None; Some 2].
Proof. by vm_compute. Qed.

(** Both sends fail, the call goes on and returns nil on the stop signal. *)
Example failing_sends_are_dropped :
  let r := ListAndWatch FakeHost.plugin0
             {| script := [Some (Err "transport is closing");
                           Some (Err "transport is closing")];
                sent := [] |}
             [RecvHealth (Some 1); RecvStop; RecvHealth (Some 2)]
             FakeHost.heap0 in
  r.2 = Returned None
  ∧ (sent r.1.2).*2 = [Some (Err "transport is closing");
                       Some (Err "transport is closing")]
  ∧ Health <$> r.1.1 = ["Healthy"; "Unhealthy"; "Healthy"; "Healthy";
                        "Healthy"; "Healthy"].
Proof. by vm_compute. Qed.

(** A nil device on the health channel brings the call down. *)
Example nil_signal_panics :
  (ListAndWatch FakeHost.plugin0 {| script := []; sent := [] |}
     [RecvHealth None; RecvStop] FakeHost.heap0).2 = Panicked.
Proof. by vm_compute. Qed.

(** Stopping a plugin that was stopped and started again closes the closed
    stop channel: a panic. *)
Example Stop_after_restart_panics :
  let '(m1, h1) := FakeHost.after_Stop FakeHost.calm
                     FakeHost.started FakeHost.node_started in
  let '(_, m2, h2) := Start FakeHost.calm m1 h1 in
  Stop FakeHost.calm m2 h2 = Panic.
Proof. by vm_compute. Qed.

(** ** The theorems at concrete inputs *)

Lemma health_signal_emits_once_witness :
  let m := FakeHost.plugin0 in
  let h := FakeHost.heap0 in
  let sc := [Some (Err "transport is closing")] in
  let ds := [Some 1; Some 4; Some 1] in
  Forall (λ d, is_Some (deref h d)) ds
  ∧ (let r := ListAndWatch m {| script := sc; sent := [] |} (RecvHealth <$> ds) h in
     r.2 = Waiting
     ∧ length (emissions r.1.2) = S (length ds)
     ∧ ∀ k D, ds !! k = Some D →
         ∃ before after,
           emissions r.1.2 !! k = Some before
           ∧ emissions r.1.2 !! S k = Some after
           ∧ length before = length (devs m)
           ∧ length after = length (devs m)
           ∧ (∀ i, devs m !! i = Some D →
                ∃ d, before !! i = Some (Some d)
                     ∧ after !! i
                       = Some (Some {| ID := ID d; Health := pluginapi.Unhealthy |}))
           ∧ (∀ i p, devs m !! i = Some p → p ≠ D → after !! i = before !! i)
           ∧ ((∀ i, devs m !! i = Some D →
                 ∃ d, before !! i = Some (Some d)
                      ∧ Health d = pluginapi.Unhealthy) →
              after = before)).
Proof.
  intros m h sc ds.
  assert (Forall (λ d, is_Some (deref h d)) ds) as V.
  { repeat constructor; vm_compute; by eexists. }
  split; [exact V|].
  exact (health_signal_emits_once m sc h ds V).
Defined.

Lemma inventory_only_degrades_witness :
  let ops1 := [OpStart FakeHost.calm; OpListAndWatch []; OpUnhealthy (Some 1);
               OpSelectHealth 0] in
  let ops2 := [OpUnhealthy (Some 1); OpSelectHealth 0; OpAllocate None;
               OpUnhealthy (Some 3); OpStop FakeHost.calm; OpSelectHealth 0;
               OpSelectStop 0] in
  let sys1 := FakeHost.state_after ops1 FakeHost.sys0 in
  let sys2 := FakeHost.state_after ops2 sys1 in
  NewRdmaSriovDevPlugin FakeHost.config ([] : FakeHost.World) []
  = (FakeHost.plugin0, FakeHost.world0, FakeHost.heap0)
  ∧ run ops1 FakeHost.sys0 = Some sys1
  ∧ run ops2 sys1 = Some sys2
  ∧ (Forall (λ od, ∃ id, od = Some {| ID := id; Health := pluginapi.Healthy |})
       (inventory FakeHost.plugin0 FakeHost.heap0)
     ∧ devs (plugin sys1) = devs FakeHost.plugin0
     ∧ devs (plugin sys2) = devs FakeHost.plugin0
     ∧ Forall2 (λ od od', ∃ d d', od = Some d ∧ od' = Some d' ∧ degrades d d')
         (inventory (plugin sys1) (heap sys1))
         (inventory (plugin sys2) (heap sys2))).
Proof.
  intros ops1 ops2 sys1 sys2.
  assert (NewRdmaSriovDevPlugin FakeHost.config ([] : FakeHost.World) []
          = (FakeHost.plugin0, FakeHost.world0, FakeHost.heap0)) as New
    by (vm_compute; reflexivity).
  assert (run ops1 FakeHost.sys0 = Some sys1) as R1 by (vm_compute; reflexivity).
  assert (run ops2 sys1 = Some sys2) as R2 by (vm_compute; reflexivity).
  refine (conj New (conj R1 (conj R2 _))).
  exact (inventory_only_degrades FakeHost.config [] FakeHost.world0 []
           FakeHost.heap0 FakeHost.plugin0 FakeHost.node ops1 ops2 sys1 sys2
           New R1 R2).
Defined.

Lemma Stop_closes_stop_channel_witness :
  let m := FakeHost.started in
  let srv := {| listeners := [socket FakeHost.plugin0] |} in
  server m = Some srv
  ∧ closed (stop m) = false
  ∧ sendq (stop m) = []
  ∧ ∃ err m' host',
      Stop FakeHost.calm m FakeHost.node_started = Ret (err, m', host')
      ∧ m' = {| resourceName := resourceName m; socket := socket m;
                devs := devs m;
                stop := {| closed := true; sendq := [] |};
                health := health m; server := None |}
      ∧ listening host'
        = listening FakeHost.node_started ∖ list_to_set (listeners srv)
      ∧ (err = None → socket m ∉ fs host')
      ∧ (unlink_refused FakeHost.calm (socket m) = None → err = None)
      ∧ ∀ h cs i s,
          cs !! i = Some {| call_stream := s; call_status := Waiting |} →
          is_Some (step (OpSelectStop i)
                     {| plugin := m'; heap := h; host := host'; calls := cs |})
          ∧ ∀ d q, sendq (health m) = d :: q → is_Some (deref h d) →
              is_Some (step (OpSelectHealth i)
                         {| plugin := m'; heap := h; host := host'; calls := cs |}).
Proof.
  intros m srv.
  assert (server m = Some srv) as S by (vm_compute; reflexivity).
  assert (closed (stop m) = false) as C by (vm_compute; reflexivity).
  assert (sendq (stop m) = []) as Q by (vm_compute; reflexivity).
  refine (conj S (conj C (conj Q _))).
  exact (Stop_closes_stop_channel FakeHost.calm m FakeHost.node_started srv S C Q).
Defined.

Lemma Stop_twice_witness :
  let m := FakeHost.started in
  let hostv := FakeHost.node_started in
  let srv := {| listeners := [socket FakeHost.plugin0] |} in
  let m1 := (FakeHost.after_Stop FakeHost.calm m hostv).1 in
  let host1 := (FakeHost.after_Stop FakeHost.calm m hostv).2 in
  server m = Some srv
  ∧ Stop FakeHost.calm m hostv = Ret (None, m1, host1)
  ∧ ((socket m ∉ fs host1)
     ∧ closed (stop m1) = true
     ∧ Stop FakeHost.rejecting m1 host1 = Ret (None, m1, host1)
     ∧ ∀ m0 host0,
         Stop FakeHost.calm (set_server m0 None) host0
         = Ret (None, set_server m0 None, host0)).
Proof.
  intros m hostv srv m1 host1.
  assert (server m = Some srv) as S by (vm_compute; reflexivity).
  assert (Stop FakeHost.calm m hostv = Ret (None, m1, host1)) as R
    by (vm_compute; reflexivity).
  refine (conj S (conj R _)).
  exact (Stop_twice FakeHost.calm FakeHost.rejecting m m1 hostv host1 srv S R).
Defined.

Lemma Serve_compensates_witness :
  let env := FakeHost.rejecting in
  let m := FakeHost.plugin0 in
  let hostv := FakeHost.node in
  closed (stop m) = false
  ∧ sendq (stop m) = []
  ∧ match Start env m hostv with
    | (Some e, m1, h1) =>
        Serve env m hostv = Ret (Some e, m1, h1)
        ∧ kubelet_log h1 = kubelet_log hostv
    | (None, m1, h1) =>
        match Register env m1 pluginapi.KubeletSocket (resourceName m1) h1 with
        | (Some e, h2) =>
            ∃ err m3 h3,
              Stop env m1 h2 = Ret (err, m3, h3)
              ∧ Serve env m hostv = Ret (Some e, m3, h3)
              ∧ server m3 = None
              ∧ closed (stop m3) = true
              ∧ (socket m ∉ listening h3)
              ∧ (unlink_refused env (socket m) = None → socket m ∉ fs h3)
        | (None, h2) => Serve env m hostv = Ret (None, m1, h2)
        end
    end.
Proof.
  intros env m hostv.
  assert (closed (stop m) = false) as C by (vm_compute; reflexivity).
  assert (sendq (stop m) = []) as Q by (vm_compute; reflexivity).
  refine (conj C (conj Q _)).
  exact (Serve_compensates env m hostv C Q).
Defined.

(** * Further properties of the lifecycle *)

(** The three ways [cleanup] can go. *)
Lemma cleanup_cases (env : Env) (m : RdmaSriovDevPlugin) (hostv : Host) :
  ((socket m ∉ fs hostv) ∧ cleanup env m hostv = (None, hostv))
  ∨ (socket m ∈ fs hostv
     ∧ unlink_refused env (socket m) = None
     ∧ cleanup env m hostv
       = (None, {| fs := fs hostv ∖ {[socket m]};
                   listening := listening hostv;
                   kubelet_log := kubelet_log hostv |}))
  ∨ (∃ msg, socket m ∈ fs hostv
            ∧ unlink_refused env (socket m) = Some msg
            ∧ cleanup env m hostv = (Some (Err msg), hostv)).
Proof.
  unfold cleanup, os_Remove.
  destruct (decide (socket m ∈ fs hostv)) as [I|N]; simpl.
  - destruct (unlink_refused env (socket m)) as [msg|] eqn:U; simpl.
    + right. right. by exists msg.
    + right. left. done.
  - left. done.
Qed.

Lemma difference_singleton_absent (x : string) (X : gset string) :
  x ∉ X → X ∖ {[x]} = X.
Proof.
  intros N. apply difference_disjoint_L, disjoint_singleton_r. exact N.
Qed.

Lemma not_elem_of_difference_singleton (x : string) (X : gset string) :
  x ∉ X ∖ {[x]}.
Proof. intros [_ O]%elem_of_difference. by apply O, elem_of_singleton. Qed.


(** What [Start] does after a [cleanup] that returned nil. *)
Lemma Start_cases (env : Env) (m : RdmaSriovDevPlugin) (hostv : Host) :
  (∃ msg, socket m ∈ fs hostv
          ∧ unlink_refused env (socket m) = Some msg
          ∧ Start env m hostv = (Some (Err msg), m, hostv))
  ∨ (∃ msg, listen_refused env (socket m) = Some msg
            ∧ Start env m hostv
              = (Some (Err msg), m,
                 {| fs := fs hostv ∖ {[socket m]};
                    listening := listening hostv;
                    kubelet_log := kubelet_log hostv |}))
  ∨ (listen_refused env (socket m) = None
     ∧ Start env m hostv
       = (Err <$> dial_refused env (socket m),
          set_server m (Some {| listeners := [socket m] |}),
          {| fs := fs hostv ∪ {[socket m]};
             listening := listening hostv ∪ {[socket m]};
             kubelet_log := kubelet_log hostv |})).
Proof.
  unfold Start.
  destruct (cleanup_cases env m hostv)
    as [[N ->]|[(I & U & ->)|(msg & I & U & ->)]].
  - unfold net_Listen. destruct (decide (socket m ∈ fs hostv)); [done|].
    destruct (listen_refused env (socket m)) as [msg|] eqn:L.
    + right. left. exists msg. split; [done|].
      rewrite difference_singleton_absent by done. by destruct hostv.
    + right. right. split; [done|].
      unfold grpc_Serve, dial, grpc_Dial. simpl.
      destruct (decide (socket m ∈ listening hostv ∪ {[socket m]})) as [_|O].
      * by destruct (dial_refused env (socket m)).
      * exfalso. apply O, elem_of_union_r. by apply elem_of_singleton.
  - unfold net_Listen. simpl.
    destruct (decide (socket m ∈ fs hostv ∖ {[socket m]})) as [I'|_].
    { by apply not_elem_of_difference_singleton in I'. }
    destruct (listen_refused env (socket m)) as [msg|] eqn:L.
    + right. left. by exists msg.
    + right. right. split; [done|].
      unfold grpc_Serve, dial, grpc_Dial. simpl.
      rewrite difference_union_L.
      destruct (decide (socket m ∈ listening hostv ∪ {[socket m]})) as [_|O].
      * by destruct (dial_refused env (socket m)).
      * exfalso. apply O, elem_of_union_r. by apply elem_of_singleton.
  - left. by exists msg.
Qed.

Lemma Start_binds_socket_eq (env : Env) (m : RdmaSriovDevPlugin) (hostv : Host) :
  unlink_refused env (socket m) = None →
  listen_refused env (socket m) = None →
  dial_refused env (socket m) = None →
  Start env m hostv
  = (None,
     {| resourceName := resourceName m; socket := socket m; devs := devs m;
        stop := stop m; health := health m;
        server := Some {| listeners := [socket m] |} |},
     {| fs := fs hostv ∪ {[socket m]};
        listening := listening hostv ∪ {[socket m]};
        kubelet_log := kubelet_log hostv |}).
Proof.
  intros U L D.
  destruct (Start_cases env m hostv)
    as [(msg & _ & U' & _)|[(msg & L' & _)|(_ & ->)]]; [congruence..|].
  by rewrite D.
Qed.

(** X2.  On a host that refuses nothing for the socket path, [Start] returns
    nil whether or not a stale socket file is there.  Afterwards the plugin
    holds a server on its socket, the socket file exists and is listened on,
    and nothing else of the plugin or the host has changed. *)
Theorem Start_binds_socket (env : Env) (m : RdmaSriovDevPlugin) (hostv : Host) :
  unlink_refused env (socket m) = None →
  listen_refused env (socket m) = None →
  dial_refused env (socket m) = None →
  Start env m hostv
  = (None,
     {| resourceName := resourceName m; socket := socket m; devs := devs m;
        stop := stop m; health := health m;
        server := Some {| listeners := [socket m] |} |},
     {| fs := fs hostv ∪ {[socket m]};
        listening := listening hostv ∪ {[socket m]};
        kubelet_log := kubelet_log hostv |}).
Proof.
  exact (Start_binds_socket_eq env m hostv).
Qed.


(** X4.  [Serve] compensates a failed registration only.  When the probing
    dial of [Start] is refused, [Serve] returns that error without calling
    [Stop]: the stop channel is as it was, the server stays on the plugin and
    the socket stays bound and listened on; the kubelet has received
    nothing. *)
Theorem Serve_keeps_server_after_failed_probe (env : Env)
    (m : RdmaSriovDevPlugin) (hostv : Host) (msg : string) :
  unlink_refused env (socket m) = None →
  listen_refused env (socket m) = None →
  dial_refused env (socket m) = Some msg →
  Serve env m hostv
  = Ret (Some (Err msg),
         {| resourceName := resourceName m; socket := socket m; devs := devs m;
            stop := stop m; health := health m;
            server := Some {| listeners := [socket m] |} |},
         {| fs := fs hostv ∪ {[socket m]};
            listening := listening hostv ∪ {[socket m]};
            kubelet_log := kubelet_log hostv |}).
Proof.
  intros U L D. unfold Serve.
  destruct (Start_cases env m hostv)
    as [(msg' & _ & U' & _)|[(msg' & L' & _)|(_ & ->)]]; [congruence..|].
  by rewrite D.
Qed.

(** [Stop] on what a successful [Start] leaves, with any registration log in
    between. *)
Lemma Stop_undoes_Start (env : Env) (m : RdmaSriovDevPlugin) (hostv : Host)
    (log : list RegisterRequest) :
  unlink_refused env (socket m) = None →
  closed (stop m) = false → sendq (stop m) = [] →
  socket m ∉ listening hostv →
  Stop env
    {| resourceName := resourceName m; socket := socket m; devs := devs m;
       stop := stop m; health := health m;
       server := Some {| listeners := [socket m] |} |}
    {| fs := fs hostv ∪ {[socket m]};
       listening := listening hostv ∪ {[socket m]};
       kubelet_log := log |}
  = Ret (None,
         {| resourceName := resourceName m; socket := socket m; devs := devs m;
            stop := {| closed := true; sendq := [] |};
            health := health m; server := None |},
         {| fs := fs hostv ∖ {[socket m]};
            listening := listening hostv;
            kubelet_log := log |}).
Proof.
  intros U C Q N.
  set (m1 := {| resourceName := resourceName m; socket := socket m;
                devs := devs m; stop := stop m; health := health m;
                server := Some {| listeners := [socket m] |} |}).
  rewrite (Stop_started env m1 _ {| listeners := [socket m] |} eq_refl C Q).
  set (h1 := grpc_Stop _ _).
  destruct (cleanup_cases env m1 h1)
    as [[O _]|[(_ & _ & ->)|(msg & _ & U' & _)]].
  - exfalso. apply O. subst h1. simpl.
    apply elem_of_union_r. by apply elem_of_singleton.
  - subst h1. simpl. do 3 f_equal.
    + rewrite difference_union_distr_l_L, difference_diag_L.
      by rewrite (right_id_L ∅ (∪)).
    + rewrite (right_id_L ∅ (∪)), difference_union_distr_l_L, difference_diag_L.
      rewrite (right_id_L ∅ (∪)). by apply difference_singleton_absent.
  - simpl in U'. congruence.
Qed.

(** X5.  [Start] then [Stop], on a plugin that was never stopped and a host
    that refuses nothing for a socket path nobody else listens on: both
    return nil, and the host is back to what it was, without the socket file.
    The plugin is back to a nil server; only its stop channel is now
    closed. *)
Theorem Start_Stop_round_trip (env env' : Env) (m : RdmaSriovDevPlugin)
    (hostv : Host) :
  unlink_refused env (socket m) = None →
  listen_refused env (socket m) = None →
  dial_refused env (socket m) = None →
  unlink_refused env' (socket m) = None →
  closed (stop m) = false → sendq (stop m) = [] →
  socket m ∉ listening hostv →
  ∃ m1 host1,
    Start env m hostv = (None, m1, host1)
    ∧ Stop env' m1 host1
      = Ret (None,
             {| resourceName := resourceName m; socket := socket m;
                devs := devs m;
                stop := {| closed := true; sendq := [] |};
                health := health m; server := None |},
             {| fs := fs hostv ∖ {[socket m]};
                listening := listening hostv;
                kubelet_log := kubelet_log hostv |}).
Proof.
  intros U L D U' C Q N.
  rewrite (Start_binds_socket_eq env m hostv U L D).
  eexists _, _. split; [done|].
  by apply Stop_undoes_Start.
Qed.


(** X7.  A plugin can be stopped once only.  After a [Stop] that returned,
    whatever it returned, a plugin that is started again cannot be stopped:
    the second [Stop] closes the closed stop channel and panics. *)
Theorem Stop_after_restart (env env1 env2 : Env)
    (m m1 m2 : RdmaSriovDevPlugin) (hostv host1 host2 : Host)
    (srv : grpc_Server) (e : option error) :
  server m = Some srv →
  Stop env m hostv = Ret (e, m1, host1) →
  Start env1 m1 host1 = (None, m2, host2) →
  Stop env2 m2 host2 = Panic.
Proof.
  intros S R St. destruct (Stop_returned _ _ _ _ _ _ _ S R) as [C Q].
  rewrite (Stop_started env m hostv srv S C Q) in R.
  injection R as _ Em _.
  pose proof (Start_spec env1 m1 host1) as (_ & _ & _ & _ & P & _ & Sv).
  rewrite St in P, Sv. simpl in P, Sv. specialize (Sv eq_refl).
  unfold Stop, chan_close. rewrite Sv. simpl. rewrite P.
  by subst m1.
Qed.

(** ** Registration *)

Lemma list_ascii_of_string_app (a b : string) :
  list_ascii_of_string (a +:+ b)
  = list_ascii_of_string a ++ list_ascii_of_string b.
Proof. induction a as [|c a IH]; simpl; [done|]. by rewrite IH. Qed.

Lemma upto_slash_app (l r : list ascii) :
  slash ∉ l → upto_slash (l ++ slash :: r) = l.
Proof.
  induction l as [|c l IH]; simpl; intros N.
  - by destruct (decide (slash = slash)).
  - apply not_elem_of_cons in N as [N1 N2].
    destruct (decide (c = slash)) as [->|_]; [done|]. by rewrite IH.
Qed.

Lemma strip_slashes_keeps (l r : list ascii) :
  l ≠ [] → slash ∉ l → strip_slashes (l ++ r) = l ++ r.
Proof.
  destruct l as [|c l]; [done|]. intros _ N. simpl.
  apply not_elem_of_cons in N as [N1 N2].
  by destruct (decide (c = slash)) as [->|_].
Qed.

(** [path.Base] of a directory, a slash and a file name is the file name. *)
Lemma path_Base_file (dir name : string) :
  name ≠ "" → slash ∉ list_ascii_of_string name →
  path_Base (dir +:+ "/" +:+ name) = name.
Proof.
  intros NE NS. unfold path_Base.
  assert (list_ascii_of_string (dir +:+ "/" +:+ name)
          = list_ascii_of_string dir ++ slash :: list_ascii_of_string name) as LA.
  { by rewrite !list_ascii_of_string_app. }
  destruct (decide (dir +:+ "/" +:+ name = "")) as [E|_].
  { rewrite E in LA. simpl in LA. by destruct (list_ascii_of_string dir). }
  rewrite LA, reverse_app, reverse_cons, <- app_assoc. simpl.
  assert (reverse (list_ascii_of_string name) ≠ []) as RNE.
  { intros E. apply (f_equal reverse) in E. rewrite reverse_involutive in E.
    apply NE. rewrite <- (string_of_list_ascii_of_string name), E. done. }
  assert (slash ∉ reverse (list_ascii_of_string name)) as RNS.
  { by rewrite elem_of_reverse. }
  rewrite (strip_slashes_keeps _ _ RNE RNS), (upto_slash_app _ _ RNS).
  rewrite reverse_involutive, string_of_list_ascii_of_string.
  by destruct (decide (name = "")).
Qed.


Lemma Serve_success (env : Env) (m : RdmaSriovDevPlugin) (hostv : Host)
    (dir file : string) :
  socket m = dir +:+ "/" +:+ file →
  file ≠ "" → slash ∉ list_ascii_of_string file →
  unlink_refused env (socket m) = None →
  listen_refused env (socket m) = None →
  dial_refused env (socket m) = None →
  pluginapi.KubeletSocket ∈ listening hostv →
  dial_refused env pluginapi.KubeletSocket = None →
  register_refused env {| req_Version := "v1beta1"; req_Endpoint := file;
                          req_ResourceName := resourceName m |} = None →
  Serve env m hostv
  = Ret (None,
         {| resourceName := resourceName m; socket := socket m; devs := devs m;
            stop := stop m; health := health m;
            server := Some {| listeners := [socket m] |} |},
         {| fs := fs hostv ∪ {[socket m]};
            listening := listening hostv ∪ {[socket m]};
            kubelet_log :=
              kubelet_log hostv
              ++ [{| req_Version := "v1beta1"; req_Endpoint := file;
                     req_ResourceName := resourceName m |}] |}).
Proof.
  intros Sk NE NS U L D K DK R. unfold Serve.
  rewrite (Start_binds_socket_eq env m hostv U L D).
  unfold Register, dial, grpc_Dial, client_Register. simpl.
  destruct (decide (pluginapi.KubeletSocket ∈ listening hostv ∪ {[socket m]}))
    as [_|O]; [|exfalso; by apply O, elem_of_union_l].
  rewrite DK, Sk, (path_Base_file dir file NE NS).
  replace (pluginapi.Version) with "v1beta1" by done.
  by rewrite R.
Qed.

Section ServeBuilt.
Context {World PfNetdevHandle VfObj : Type}.
Context `{!Sriovnet World PfNetdevHandle VfObj}.

(** X9.  Serving the plugin that [NewRdmaSriovDevPlugin] builds, whatever
    the configuration.  On a host where the kubelet listens and nothing is
    refused, [Serve] returns nil; the plugin then has its server on
    /var/lib/kubelet/device-plugins/rdma-sriov-dp.sock, which exists and is
    listened on, and the kubelet has received one more request, for the
    resource rdma/vhca at the endpoint rdma-sriov-dp.sock with version
    v1beta1.  The device list and both channels are untouched. *)
Theorem Serve_registers_built_plugin (env : Env) (config : UserConfig)
    (w : World) (h : Heap) (hostv : Host) :
  let m := (NewRdmaSriovDevPlugin config w h).1.1 in
  let sock := "/var/lib/kubelet/device-plugins/rdma-sriov-dp.sock" in
  let reqt := {| req_Version := "v1beta1";
                 req_Endpoint := "rdma-sriov-dp.sock";
                 req_ResourceName := "rdma/vhca" |} in
  unlink_refused env sock = None →
  listen_refused env sock = None →
  dial_refused env sock = None →
  pluginapi.KubeletSocket ∈ listening hostv →
  dial_refused env pluginapi.KubeletSocket = None →
  register_refused env reqt = None →
  Serve env m hostv
  = Ret (None,
         {| resourceName := "rdma/vhca"; socket := sock; devs := devs m;
            stop := make_chan; health := make_chan;
            server := Some {| listeners := [sock] |} |},
         {| fs := fs hostv ∪ {[sock]};
            listening := listening hostv ∪ {[sock]};
            kubelet_log := kubelet_log hostv ++ [reqt] |}).
Proof.
  intros m sock reqt U L D K DK R. subst m.
  rewrite NewRdmaSriovDevPlugin_spec. cbn [fst].
  assert (slash ∉ list_ascii_of_string RdmaSriovDpSocket) as NS.
  { apply (bool_decide_unpack _). by vm_compute. }
  match goal with
  | |- Serve env ?m _ = _ =>
      by rewrite (Serve_success env m hostv "/var/lib/kubelet/device-plugins"
                    RdmaSriovDpSocket eq_refl ltac:(done) NS U L D K DK R)
  end.
Qed.
End ServeBuilt.

(** X10.  Serving without a kubelet.  When nothing listens on the kubelet's
    socket, [Serve] on a plugin that was never stopped, on a host that
    refuses nothing for the plugin's socket, starts the server, fails to dial
    the kubelet, stops the server again and returns the dial error.  The host
    ends as it began, without the socket file, and the kubelet's log is
    untouched; the plugin ends with a nil server and a closed stop
    channel. *)
Theorem Serve_without_kubelet (env : Env) (m : RdmaSriovDevPlugin)
    (hostv : Host) :
  unlink_refused env (socket m) = None →
  listen_refused env (socket m) = None →
  dial_refused env (socket m) = None →
  closed (stop m) = false → sendq (stop m) = [] →
  socket m ∉ listening hostv →
  socket m ≠ pluginapi.KubeletSocket →
  pluginapi.KubeletSocket ∉ listening hostv →
  Serve env m hostv
  = Ret (Some (Err "context deadline exceeded"),
         {| resourceName := resourceName m; socket := socket m; devs := devs m;
            stop := {| closed := true; sendq := [] |};
            health := health m; server := None |},
         {| fs := fs hostv ∖ {[socket m]};
            listening := listening hostv;
            kubelet_log := kubelet_log hostv |}).
Proof.
  intros U L D C Q N NK K. unfold Serve.
  rewrite (Start_binds_socket_eq env m hostv U L D).
  unfold Register, dial, grpc_Dial. simpl.
  destruct (decide (pluginapi.KubeletSocket ∈ listening hostv ∪ {[socket m]}))
    as [[I|I%elem_of_singleton]%elem_of_union|_]; [done | done |].
  by rewrite (Stop_undoes_Start env m hostv (kubelet_log hostv) U C Q N).
Qed.

(** * Further properties of ListAndWatch *)

Lemma watch_loop_until_stop (m : RdmaSriovDevPlugin) (evs : list event)
    (h : Heap) (s : ListAndWatchServer) :
  Forall (λ d, is_Some (deref h d)) (signals_before_stop evs) →
  (watch_loop m evs h s).2
  = (if received_stop evs then Returned None else Waiting)
  ∧ emissions (watch_loop m evs h s).1.2
    = emissions s ++ (inventory m <$> heaps_after (signals_before_stop evs) h)
  ∧ (watch_loop m evs h s).1.1
    = default h (last (heaps_after (signals_before_stop evs) h)).
Proof.
  revert h s. induction evs as [|ev evs IH]; intros h s V.
  - simpl. by rewrite app_nil_r.
  - destruct ev as [|d].
    + simpl. by rewrite app_nil_r.
    + cbn [signals_before_stop received_stop] in *.
      apply Forall_cons in V as [Vd V].
      destruct (set_Health_is_Some d pluginapi.Unhealthy h Vd) as [h' E].
      rewrite (watch_loop_signal _ _ _ _ _ _ E), (heaps_after_cons _ _ _ _ E).
      assert (Forall (λ d0, is_Some (deref h' d0)) (signals_before_stop evs)) as V'.
      { eapply Forall_impl; [exact V|]. intros p.
        by apply deref_set_Health_valid with (d := d) (v := pluginapi.Unhealthy). }
      destruct (IH h' (Send {| lw_Devices := devs m |} h' s).2 V') as (I1 & I2 & I3).
      split_and!; [exact I1 | |].
      * rewrite I2, emissions_Send, <- app_assoc. done.
      * rewrite I3, last_cons.
        by destruct (last (heaps_after (signals_before_stop evs) h')).
Qed.

(** X11.  What a call has done after any sequence of events whose health
    signals, up to the first stop signal, are for existing devices.  It has
    returned nil if a stop signal was among the events and is waiting
    otherwise.  It has emitted the snapshot and then one message per health
    signal received before the first stop signal, each showing the store as
    that signal left it; nothing that comes after the stop signal is received
    or emitted. *)
Theorem ListAndWatch_until_stop (m : RdmaSriovDevPlugin)
    (sc : list (option error)) (evs : list event) (h : Heap) :
  Forall (λ d, is_Some (deref h d)) (signals_before_stop evs) →
  let r := ListAndWatch m {| script := sc; sent := [] |} evs h in
  r.2 = (if received_stop evs then Returned None else Waiting)
  ∧ emissions r.1.2
    = inventory m <$> (h :: heaps_after (signals_before_stop evs) h)
  ∧ length (emissions r.1.2) = S (length (signals_before_stop evs))
  ∧ r.1.1 = default h (last (heaps_after (signals_before_stop evs) h)).
Proof.
  intros V r. subst r. rewrite ListAndWatch_unfold.
  destruct (watch_loop_until_stop m evs h
              (Send {| lw_Devices := devs m |} h {| script := sc; sent := [] |}).2 V)
    as (W1 & W2 & W3).
  destruct (watch_loop_health m (signals_before_stop evs) h
              {| script := sc; sent := [] |} V) as (_ & _ & Len).
  split_and!; [exact W1 | | | exact W3].
  - rewrite W2. by rewrite emissions_Send.
  - rewrite W2, emissions_Send, length_app, length_fmap, Len. simpl. lia.
Qed.

(** The store a call leaves, cell by cell. *)
Lemma watch_loop_store (m : RdmaSriovDevPlugin) (ds : list ptr)
    (h : Heap) (s : ListAndWatchServer) (p : ptr) :
  Forall (λ d, is_Some (deref h d)) ds →
  deref (watch_loop m (RecvHealth <$> ds) h s).1.1 p
  = if decide (p ∈ ds) then degraded <$> deref h p else deref h p.
Proof.
  revert h s. induction ds as [|d ds IH]; intros h s V.
  - simpl. destruct (decide (p ∈ [])) as [I|_]; [by apply elem_of_nil in I | done].
  - apply Forall_cons in V as [Vd V].
    destruct (set_Health_is_Some d pluginapi.Unhealthy h Vd) as [h' E].
    rewrite fmap_cons, (watch_loop_signal _ _ _ _ _ _ E).
    assert (Forall (λ d0, is_Some (deref h' d0)) ds) as V'.
    { eapply Forall_impl; [exact V|]. intros q.
      by apply deref_set_Health_valid with (d := d) (v := pluginapi.Unhealthy). }
    rewrite (IH h' _ V').
    destruct (decide (p = d)) as [->|N].
    + destruct (deref_set_Health_eq _ _ _ _ E) as (x & X1 & X2).
      rewrite X1, X2.
      destruct (decide (d ∈ d :: ds)) as [_|O]; [|exfalso; apply O; left].
      by destruct (decide (d ∈ ds)).
    + rewrite (deref_set_Health_ne _ _ _ _ _ E N).
      destruct (decide (p ∈ ds)) as [I|O];
        destruct (decide (p ∈ d :: ds)) as [I'|O']; try done.
      * exfalso. apply O'. by right.
      * apply elem_of_cons in I' as [?|?]; done.
Qed.

(** X12.  The store that a call leaves depends on which devices were
    signalled, not on the order or the number of the signals.  After health
    signals for existing devices, a cell that was signalled holds the same
    identifier with health Unhealthy and every other cell is as it was; so two
    sequences of signals for the same set of devices leave the same store. *)
Theorem final_store_depends_on_signalled_set (m : RdmaSriovDevPlugin)
    (sc sc' : list (option error)) (ds ds' : list ptr) (h : Heap) :
  Forall (λ d, is_Some (deref h d)) ds →
  Forall (λ d, is_Some (deref h d)) ds' →
  (∀ p, p ∈ ds ↔ p ∈ ds') →
  let final := (ListAndWatch m {| script := sc; sent := [] |}
                  (RecvHealth <$> ds) h).1.1 in
  let final' := (ListAndWatch m {| script := sc'; sent := [] |}
                   (RecvHealth <$> ds') h).1.1 in
  (∀ p, deref final p
        = if decide (p ∈ ds)
          then (λ d, {| ID := ID d; Health := pluginapi.Unhealthy |}) <$> deref h p
          else deref h p)
  ∧ final = final'.
Proof.
  intros V V' Same final final'. subst final final'.
  rewrite !ListAndWatch_unfold. split.
  - intros p. by rewrite (watch_loop_store m ds h _ p V).
  - apply list_eq. intros l.
    pose proof (watch_loop_store m ds h
                  (Send {| lw_Devices := devs m |} h {| script := sc; sent := [] |}).2
                  (Some l) V) as E1.
    pose proof (watch_loop_store m ds' h
                  (Send {| lw_Devices := devs m |} h {| script := sc'; sent := [] |}).2
                  (Some l) V') as E2.
    cbn [deref] in E1, E2. rewrite E1, E2.
    destruct (decide (Some l ∈ ds)) as [I|O];
      destruct (decide (Some l ∈ ds')) as [I'|O']; try done.
    + exfalso. by apply O', Same.
    + exfalso. by apply O, Same.
Qed.

(** * Further properties of the transition system *)

(** X13.  A health signal reaches one call.  When the call [i] takes the
    health case, it was waiting and a sender was blocked on the health
    channel; the oldest blocked sender is released, its device is written
    Unhealthy in the store, and the call [i] emits the device list once more.
    Every other call is as before: it emits nothing and its stream does not
    show the change. *)
Theorem health_signal_reaches_one_call (i : nat) (sys sys' : System) :
  step (OpSelectHealth i) sys = Some sys' →
  ∃ d q s s',
    sendq (health (plugin sys)) = d :: q
    ∧ sendq (health (plugin sys')) = q
    ∧ calls sys !! i = Some {| call_stream := s; call_status := Waiting |}
    ∧ set_Health d pluginapi.Unhealthy (heap sys) = Some (heap sys')
    ∧ calls sys' !! i = Some {| call_stream := s'; call_status := Waiting |}
    ∧ emissions s' = emissions s ++ [inventory (plugin sys) (heap sys')]
    ∧ devs (plugin sys') = devs (plugin sys)
    ∧ ∀ j, j ≠ i → calls sys' !! j = calls sys !! j.
Proof.
  unfold step, chan_recv.
  destruct (sendq (health (plugin sys))) as [|d q] eqn:Q.
  - destruct (closed (health (plugin sys))); [|done].
    simpl. unfold turn.
    by destruct (calls sys !! i) as [[s [| |]]|].
  - simpl. unfold turn.
    destruct (calls sys !! i) as [[s [| |]]|] eqn:Ci; try done.
    cbn [select_case].
    destruct (set_Health d pluginapi.Unhealthy (heap sys)) as [h'|] eqn:E; [|done].
    destruct (Send _ h' s) as [r s'] eqn:ES. intros [= <-].
    exists d, q, s, s'. cbn [plugin heap calls health set_health sendq devs].
    split_and!; [done | done | done | done | | | done |].
    + apply list_lookup_insert_eq. by eapply lookup_lt_Some.
    + replace s' with (Send {| lw_Devices := devs (plugin sys) |} h' s).2.
      * by rewrite emissions_Send.
      * cbn [set_health devs] in ES. by rewrite ES.
    + intros j N. by apply list_lookup_insert_ne.
Qed.

Lemma run_app (ops1 ops2 : list op) (sys : System) :
  run (ops1 ++ ops2) sys = run ops1 sys ≫= run ops2.
Proof.
  revert sys. induction ops1 as [|o ops1 IH]; intros sys; simpl; [done|].
  destruct (step o sys) as [sys1|]; simpl; [apply IH | done].
Qed.

(** One hand-off: a caller enters [unhealthy], the call [i] takes the health
    case, and the health channel is empty again. *)
Lemma handoff_run (i : nat) (d : ptr) (sys : System)
    (s : ListAndWatchServer) (h' : Heap) :
  calls sys !! i = Some {| call_stream := s; call_status := Waiting |} →
  health (plugin sys) = {| closed := false; sendq := [] |} →
  set_Health d pluginapi.Unhealthy (heap sys) = Some h' →
  run [OpUnhealthy d; OpSelectHealth i] sys
  = Some {| plugin := plugin sys; heap := h'; host := host sys;
            calls := <[i := {| call_stream :=
                                 (Send {| lw_Devices := devs (plugin sys) |} h' s).2;
                               call_status := Waiting |}]> (calls sys) |}.
Proof.
  intros Ci Hc E. destruct sys as [m h hostv cs]. cbn [plugin heap host calls] in *.
  cbn [run step plugin heap host calls]. unfold unhealthy, chan_send.
  rewrite Hc. cbn [closed sendq fmap option_fmap option_map mbind option_bind app].
  cbn [step plugin heap host calls set_health health]. unfold chan_recv.
  cbn [sendq closed mbind option_bind]. unfold turn. cbn [calls heap host].
  rewrite Ci. cbn [select_case]. rewrite E. cbn [set_health devs].
  destruct (Send {| lw_Devices := devs m |} h' s) as [r s'] eqn:ES.
  cbn [snd mbind option_bind run]. do 2 f_equal.
  destruct m as [rn sk dv st hc sv]. cbn in *. by subst hc.
Qed.

(** X14.  The hand-off between [unhealthy] and a [ListAndWatch] call.  Let
    one call be waiting and nobody be blocked on the open health channel.
    Then a caller entering [unhealthy] for an existing device and the call
    taking the health case, once for each device of [ds] in turn, is a run of
    the system; it leaves the plugin and the host as they were, the health
    channel empty, and the store and the stream of the call exactly as the
    loop of [ListAndWatch] leaves them after receiving the signals [ds]. *)
Theorem handoffs_run_the_loop (i : nat) (ds : list ptr) (sys : System)
    (s : ListAndWatchServer) :
  calls sys !! i = Some {| call_stream := s; call_status := Waiting |} →
  health (plugin sys) = {| closed := false; sendq := [] |} →
  Forall (λ d, is_Some (deref (heap sys) d)) ds →
  let r := watch_loop (plugin sys) (RecvHealth <$> ds) (heap sys) s in
  run (handoffs i ds) sys
  = Some {| plugin := plugin sys; heap := r.1.1; host := host sys;
            calls := <[i := {| call_stream := r.1.2; call_status := Waiting |}]>
                       (calls sys) |}.
Proof.
  revert sys s. induction ds as [|d ds IH]; intros sys s Ci Hc V r; subst r.
  - simpl. rewrite list_insert_id by done. by destruct sys.
  - apply Forall_cons in V as [Vd V].
    destruct (set_Health_is_Some d pluginapi.Unhealthy (heap sys) Vd) as [h' E].
    unfold handoffs. rewrite bind_cons, run_app.
    rewrite (handoff_run i d sys s h' Ci Hc E). cbn [mbind option_bind].
    rewrite fmap_cons, (watch_loop_signal _ _ _ _ _ _ E).
    set (s1 := (Send {| lw_Devices := devs (plugin sys) |} h' s).2).
    set (sys1 := {| plugin := plugin sys; heap := h'; host := host sys;
                    calls := <[i := {| call_stream := s1; call_status := Waiting |}]>
                               (calls sys) |}).
    assert (calls sys1 !! i = Some {| call_stream := s1; call_status := Waiting |}) as Ci1.
    { apply list_lookup_insert_eq. by eapply lookup_lt_Some. }
    assert (Forall (λ d0, is_Some (deref (heap sys1) d0)) ds) as V1.
    { eapply Forall_impl; [exact V|]. intros p.
      by apply deref_set_Health_valid with (d := d) (v := pluginapi.Unhealthy). }
    pose proof (IH sys1 s1 Ci1 Hc V1) as R. cbn zeta in R.
    fold (handoffs i ds). rewrite R. subst sys1. cbn [plugin heap host calls].
    by rewrite list_insert_insert_eq.
Qed.

Lemma step_store (o : op) (sys sys' : System) :
  takes_health_case o = false → step o sys = Some sys' → heap sys' = heap sys.
Proof.
  destruct o; cbn [step takes_health_case]; intros T; try done.
  - destruct (Start env (plugin sys) (host sys)) as [[e m1] h1]. by intros [= <-].
  - destruct (Stop env (plugin sys) (host sys)) as [[[e m1] h1]|]; [|done].
    by intros [= <-].
  - destruct (Serve env (plugin sys) (host sys)) as [[[e m1] h1]|]; [|done].
    by intros [= <-].
  - destruct (Register env (plugin sys) _ _ (host sys)) as [e h1]. by intros [= <-].
  - by intros [= <-].
  - by intros [= <-].
  - by intros [= <-].
  - destruct (unhealthy (plugin sys) dev); [|done]. by intros [= <-].
  - rewrite ListAndWatch_unfold. cbn [watch_loop]. by intros [= <-].
  - destruct (chan_recv () (stop (plugin sys))) as [[u c]|]; [|done]. simpl.
    unfold turn. destruct (calls sys !! i) as [[s [| |]]|]; try done.
    by intros [= <-].
Qed.

(** X15.  Only the health case of a [ListAndWatch] call writes the store.  A
    run in which no call takes the health case leaves every device as it
    was, whatever else happens: starting, stopping, serving, registering,
    allocating, opening calls, closing them through the stop case, or callers
    entering [unhealthy], whose signals then stay pending. *)
Theorem store_written_by_health_case_only (ops : list op) (sys sys' : System) :
  Forall (λ o, takes_health_case o = false) ops →
  run ops sys = Some sys' →
  heap sys' = heap sys.
Proof.
  revert sys. induction ops as [|o ops IH]; intros sys F; simpl.
  - by intros [= <-].
  - apply Forall_cons in F as [T F].
    destruct (step o sys) as [sys1|] eqn:S; [|done]. simpl. intros R.
    rewrite (IH _ F R). by eapply step_store.
Qed.

Lemma Stop_fields (env : Env) (m m' : RdmaSriovDevPlugin) (hostv host' : Host)
    (err : option error) :
  Stop env m hostv = Ret (err, m', host') →
  resourceName m' = resourceName m
  ∧ socket m' = socket m
  ∧ health m' = health m
  ∧ sendq (stop m') = sendq (stop m)
  ∧ (closed (stop m) = true → closed (stop m') = true).
Proof.
  unfold Stop. destruct (server m) as [srv|]; [|by intros [= <- <-]].
  simpl. unfold chan_close.
  destruct (closed (stop m)); [done|].
  destruct (sendq (stop m)) eqn:Q; [|done].
  destruct (cleanup env _ _) as [e host1]. by intros [= _ <- _].
Qed.

Lemma Serve_fields (env : Env) (m m' : RdmaSriovDevPlugin) (hostv host' : Host)
    (err : option error) :
  Serve env m hostv = Ret (err, m', host') →
  resourceName m' = resourceName m
  ∧ socket m' = socket m
  ∧ health m' = health m
  ∧ sendq (stop m') = sendq (stop m)
  ∧ (closed (stop m) = true → closed (stop m') = true).
Proof.
  unfold Serve.
  pose proof (Start_spec env m hostv) as (_ & Rn & Sk & _ & St & Hc & _).
  destruct (Start env m hostv) as [[[e|] m1] h1]; simpl in *.
  { intros [= _ <- _]. by rewrite Rn, Sk, Hc, St. }
  destruct (Register env m1 _ _ h1) as [[e|] h2].
  - destruct (Stop env m1 h2) as [[[e' m2] h3]|] eqn:S; [|done].
    intros [= _ <- _]. destruct (Stop_fields _ _ _ _ _ _ S) as (A & B & C & D & E).
    by rewrite A, B, C, D, Rn, Sk, Hc, <- St.
  - intros [= _ <- _]. by rewrite Rn, Sk, Hc, St.
Qed.

Lemma turn_plugin (i : nat) (ev : event) (m : RdmaSriovDevPlugin)
    (sys sys' : System) :
  turn i ev m sys = Some sys' → plugin sys' = m.
Proof. intros T. by destruct (turn_invariant _ _ _ _ _ T). Qed.

Lemma step_channels (o : op) (sys sys' : System) :
  step o sys = Some sys' →
  resourceName (plugin sys') = resourceName (plugin sys)
  ∧ socket (plugin sys') = socket (plugin sys)
  ∧ closed (health (plugin sys')) = closed (health (plugin sys))
  ∧ (sendq (stop (plugin sys)) = [] → sendq (stop (plugin sys')) = [])
  ∧ (closed (stop (plugin sys)) = true → closed (stop (plugin sys')) = true).
Proof.
  destruct o; cbn [step].
  - pose proof (Start_spec env (plugin sys) (host sys)) as (_ & Rn & Sk & _ & St & Hc & _).
    destruct (Start env (plugin sys) (host sys)) as [[e m1] h1]. simpl in *.
    intros [= <-]. simpl. by rewrite Rn, Sk, Hc, St.
  - destruct (Stop env (plugin sys) (host sys)) as [[[e m1] h1]|] eqn:S; [|done].
    intros [= <-]. simpl.
    destruct (Stop_fields _ _ _ _ _ _ S) as (A & B & C & D & E).
    by rewrite A, B, C, D.
  - destruct (Serve env (plugin sys) (host sys)) as [[[e m1] h1]|] eqn:S; [|done].
    intros [= <-]. simpl.
    destruct (Serve_fields _ _ _ _ _ _ S) as (A & B & C & D & E).
    by rewrite A, B, C, D.
  - destruct (Register env (plugin sys) _ _ (host sys)) as [e h1].
    by intros [= <-].
  - by intros [= <-].
  - by intros [= <-].
  - by intros [= <-].
  - unfold unhealthy, chan_send.
    destruct (closed (health (plugin sys))) eqn:C; [done|]. simpl.
    by intros [= <-].
  - rewrite ListAndWatch_unfold. cbn [watch_loop]. by intros [= <-].
  - unfold chan_recv.
    destruct (sendq (stop (plugin sys))) as [|u q] eqn:Q.
    + destruct (closed (stop (plugin sys))) eqn:C; [|done]. simpl.
      intros T. rewrite (turn_plugin _ _ _ _ _ T). simpl. by rewrite Q, C.
    + simpl. intros T. rewrite (turn_plugin _ _ _ _ _ T). by simpl.
  - unfold chan_recv.
    destruct (sendq (health (plugin sys))) as [|d q] eqn:Q.
    + destruct (closed (health (plugin sys))) eqn:C; [|done]. simpl.
      intros T. rewrite (turn_plugin _ _ _ _ _ T). simpl. by rewrite C.
    + simpl. intros T. rewrite (turn_plugin _ _ _ _ _ T). by simpl.
Qed.

(** X16.  What no operation does to the plugin.  Along every run the
    resource name and the socket path stay what they were, the health channel
    is never closed (nor reopened), nobody ever blocks sending on the stop
    channel, and once the stop channel is closed it stays closed: after [Stop]
    every [ListAndWatch] call, also one opened later, can return at once. *)
Theorem channels_along_runs (ops : list op) (sys sys' : System) :
  run ops sys = Some sys' →
  resourceName (plugin sys') = resourceName (plugin sys)
  ∧ socket (plugin sys') = socket (plugin sys)
  ∧ closed (health (plugin sys')) = closed (health (plugin sys))
  ∧ (sendq (stop (plugin sys)) = [] → sendq (stop (plugin sys')) = [])
  ∧ (closed (stop (plugin sys)) = true → closed (stop (plugin sys')) = true).
Proof.
  revert sys. induction ops as [|o ops IH]; intros sys; simpl.
  - by intros [= <-].
  - destruct (step o sys) as [sys1|] eqn:S; [|done]. simpl. intros R.
    destruct (step_channels _ _ _ S) as (A & B & C & D & E).
    destruct (IH _ R) as (A' & B' & C' & D' & E').
    split_and!; [congruence | congruence | congruence | auto | auto].
Qed.

(** * Further properties of the inventory builder *)

Section BuilderMore.
Context {World PfNetdevHandle VfObj : Type}.
Context `{!Sriovnet World PfNetdevHandle VfObj}.

Lemma contributions_app (names1 names2 : list string) (w : World) :
  contributions (names1 ++ names2) w
  = contributions names1 w ++ contributions names2 (world_after names1 w).
Proof.
  revert w. induction names1 as [|n names1 IH]; intros w; simpl; [done|].
  destruct (contribution n w) as [ids w1]. simpl. by rewrite IH.
Qed.

Lemma world_after_app (names1 names2 : list string) (w : World) :
  world_after (names1 ++ names2) w
  = world_after names2 (world_after names1 w).
Proof.
  revert w. induction names1 as [|n names1 IH]; intros w; simpl; [done|].
  apply IH.
Qed.

(** X17.  The builder allocates and never overwrites.  The store it returns
    is the store it was given followed by one new cell per device of the
    inventory, and the device list is the list of the addresses of these new
    cells, in order: no device that existed before is changed or aliased.
    The plugin is returned with a nil server and with both channels open and
    nobody blocked on them. *)
Theorem NewRdmaSriovDevPlugin_allocates (config : UserConfig) (w : World)
    (h : Heap) :
  let m := (NewRdmaSriovDevPlugin config w h).1.1 in
  let h' := (NewRdmaSriovDevPlugin config w h).2 in
  take (length h) h' = h
  ∧ length h' = length h + length (devs m)
  ∧ devs m = Some <$> seq (length h) (length (devs m))
  ∧ Forall (λ p, deref h p = None ∧ is_Some (deref h' p)) (devs m)
  ∧ server m = None
  ∧ stop m = {| closed := false; sendq := [] |}
  ∧ health m = {| closed := false; sendq := [] |}.
Proof.
  intros m h'. subst m h'. rewrite NewRdmaSriovDevPlugin_spec. cbn [fst snd devs].
  set (ids := concat (contributions (PfNetdevices config) w)).
  split_and!; try done.
  - by rewrite take_app_length.
  - by rewrite length_app, !length_fmap, length_seq.
  - by rewrite length_fmap, length_seq.
  - apply Forall_fmap, Forall_forall. intros l [L1 L2]%elem_of_seq. simpl. split.
    + apply lookup_ge_None_2. lia.
    + apply lookup_lt_is_Some_2. rewrite length_app, length_fmap. lia.
Qed.

(** X18.  Building from a list of names in two parts.  The inventory built
    from [names1 ++ names2] is the inventory built from [names1] followed by
    the inventory built from [names2] on the network configuration and the
    store that the first build leaves; the final configuration and store are
    those of the second build. *)
Theorem NewRdmaSriovDevPlugin_app (names1 names2 : list string) (w : World)
    (h : Heap) :
  let r := NewRdmaSriovDevPlugin {| PfNetdevices := names1 ++ names2 |} w h in
  let r1 := NewRdmaSriovDevPlugin {| PfNetdevices := names1 |} w h in
  let r2 := NewRdmaSriovDevPlugin {| PfNetdevices := names2 |} r1.1.2 r1.2 in
  devs r.1.1 = devs r1.1.1 ++ devs r2.1.1
  ∧ r.1.2 = r2.1.2
  ∧ r.2 = r2.2.
Proof.
  intros r r1 r2. subst r r1 r2. rewrite !NewRdmaSriovDevPlugin_spec.
  cbn [fst snd devs PfNetdevices].
  rewrite contributions_app, world_after_app, concat_app, fmap_app.
  split_and!; [| done | by rewrite app_assoc].
  rewrite !length_app, !length_fmap, seq_app, fmap_app. done.
Qed.

(** X19.  A build in which no device yields a virtual function, because its
    configuration fails or because its handle lists none, returns an empty
    inventory and the store it was given; the plugin is built all the
    same. *)
Theorem NewRdmaSriovDevPlugin_nothing_to_expose (config : UserConfig)
    (w : World) (h : Heap) :
  Forall (λ c, c = None ∨ c = Some 0) (vf_counts (PfNetdevices config) w) →
  devs (NewRdmaSriovDevPlugin config w h).1.1 = []
  ∧ (NewRdmaSriovDevPlugin config w h).2 = h
  ∧ server (NewRdmaSriovDevPlugin config w h).1.1 = None.
Proof.
  intros Z. rewrite NewRdmaSriovDevPlugin_spec. cbn [fst snd devs server].
  assert (concat (contributions (PfNetdevices config) w) = []) as E.
  { pose proof (contributions_counts (PfNetdevices config) w) as C.
    induction C as [|c ids cs ls L _ IH]; [done|].
    apply Forall_cons in Z as [Zc Z]. simpl. rewrite (IH Z), app_nil_r.
    apply nil_length_inv. rewrite L. by destruct Zc as [->| ->]. }
  rewrite E. simpl. by rewrite app_nil_r.
Qed.
End BuilderMore.

(** * The further properties at concrete inputs *)

Lemma Start_binds_socket_witness :
  let env := FakeHost.calm in
  let m := FakeHost.plugin0 in
  let hostv := FakeHost.node_stale in
  unlink_refused env (socket m) = None
  ∧ listen_refused env (socket m) = None
  ∧ dial_refused env (socket m) = None
  ∧ Start env m hostv
    = (None,
       {| resourceName := resourceName m; socket := socket m; devs := devs m;
          stop := stop m; health := health m;
          server := Some {| listeners := [socket m] |} |},
       {| fs := fs hostv ∪ {[socket m]};
          listening := listening hostv ∪ {[socket m]};
          kubelet_log := kubelet_log hostv |}).
Proof.
  intros env m hostv.
  refine (conj eq_refl (conj eq_refl (conj eq_refl _))).
  exact (Start_binds_socket env m hostv eq_refl eq_refl eq_refl).
Defined.


Lemma Serve_keeps_server_after_failed_probe_witness :
  let env := FakeHost.no_probe in
  let m := FakeHost.plugin0 in
  let hostv := FakeHost.node in
  let msg := "connection refused" in
  unlink_refused env (socket m) = None
  ∧ listen_refused env (socket m) = None
  ∧ dial_refused env (socket m) = Some msg
  ∧ Serve env m hostv
    = Ret (Some (Err msg),
           {| resourceName := resourceName m; socket := socket m; devs := devs m;
              stop := stop m; health := health m;
              server := Some {| listeners := [socket m] |} |},
           {| fs := fs hostv ∪ {[socket m]};
              listening := listening hostv ∪ {[socket m]};
              kubelet_log := kubelet_log hostv |}).
Proof.
  intros env m hostv msg.
  assert (dial_refused env (socket m) = Some msg) as D
    by (vm_compute; reflexivity).
  refine (conj eq_refl (conj eq_refl (conj D _))).
  exact (Serve_keeps_server_after_failed_probe env m hostv msg eq_refl eq_refl D).
Defined.

Lemma Start_Stop_round_trip_witness :
  let env := FakeHost.calm in
  let m := FakeHost.plugin0 in
  let hostv := FakeHost.node_stale in
  unlink_refused env (socket m) = None
  ∧ listen_refused env (socket m) = None
  ∧ dial_refused env (socket m) = None
  ∧ closed (stop m) = false
  ∧ sendq (stop m) = []
  ∧ (socket m ∉ listening hostv)
  ∧ ∃ m1 host1,
      Start env m hostv = (None, m1, host1)
      ∧ Stop env m1 host1
        = Ret (None,
               {| resourceName := resourceName m; socket := socket m;
                  devs := devs m;
                  stop := {| closed := true; sendq := [] |};
                  health := health m; server := None |},
               {| fs := fs hostv ∖ {[socket m]};
                  listening := listening hostv;
                  kubelet_log := kubelet_log hostv |}).
Proof.
  intros env m hostv.
  assert (closed (stop m) = false) as C by (vm_compute; reflexivity).
  assert (sendq (stop m) = []) as Q by (vm_compute; reflexivity).
  assert (socket m ∉ listening hostv) as N
    by (apply (bool_decide_unpack _); vm_compute; exact I).
  refine (conj eq_refl (conj eq_refl (conj eq_refl (conj C (conj Q (conj N _)))))).
  exact (Start_Stop_round_trip env env m hostv eq_refl eq_refl eq_refl eq_refl C Q N).
Defined.


Lemma Stop_after_restart_witness :
  let env := FakeHost.calm in
  let m := FakeHost.started in
  let hostv := FakeHost.node_started in
  let srv := {| listeners := [socket FakeHost.plugin0] |} in
  let m1 := (FakeHost.after_Stop env m hostv).1 in
  let host1 := (FakeHost.after_Stop env m hostv).2 in
  let m2 := (Start env m1 host1).1.2 in
  let host2 := (Start env m1 host1).2 in
  server m = Some srv
  ∧ Stop env m hostv = Ret (None, m1, host1)
  ∧ Start env m1 host1 = (None, m2, host2)
  ∧ Stop env m2 host2 = Panic.
Proof.
  intros env m hostv srv m1 host1 m2 host2.
  assert (server m = Some srv) as S by (vm_compute; reflexivity).
  assert (Stop env m hostv = Ret (None, m1, host1)) as R
    by (vm_compute; reflexivity).
  assert (Start env m1 host1 = (None, m2, host2)) as St
    by (vm_compute; reflexivity).
  refine (conj S (conj R (conj St _))).
  exact (Stop_after_restart env env env m m1 m2 hostv host1 host2 srv None S R St).
Defined.


Lemma Serve_registers_built_plugin_witness :
  let env := FakeHost.calm in
  let hostv := FakeHost.node in
  let m := (NewRdmaSriovDevPlugin FakeHost.config ([] : FakeHost.World) []).1.1 in
  let sock := "/var/lib/kubelet/device-plugins/rdma-sriov-dp.sock" in
  let reqt := {| req_Version := "v1beta1";
                 req_Endpoint := "rdma-sriov-dp.sock";
                 req_ResourceName := "rdma/vhca" |} in
  unlink_refused env sock = None
  ∧ listen_refused env sock = None
  ∧ dial_refused env sock = None
  ∧ pluginapi.KubeletSocket ∈ listening hostv
  ∧ dial_refused env pluginapi.KubeletSocket = None
  ∧ register_refused env reqt = None
  ∧ Serve env m hostv
    = Ret (None,
           {| resourceName := "rdma/vhca"; socket := sock; devs := devs m;
              stop := make_chan; health := make_chan;
              server := Some {| listeners := [sock] |} |},
           {| fs := fs hostv ∪ {[sock]};
              listening := listening hostv ∪ {[sock]};
              kubelet_log := kubelet_log hostv ++ [reqt] |}).
Proof.
  intros env hostv m sock reqt.
  assert (pluginapi.KubeletSocket ∈ listening hostv) as K
    by (apply (bool_decide_unpack _); vm_compute; exact I).
  refine (conj eq_refl (conj eq_refl (conj eq_refl
            (conj K (conj eq_refl (conj eq_refl _)))))).
  exact (Serve_registers_built_plugin env FakeHost.config [] [] hostv
           eq_refl eq_refl eq_refl K eq_refl eq_refl).
Defined.

Lemma Serve_without_kubelet_witness :
  let env := FakeHost.calm in
  let m := FakeHost.plugin0 in
  let hostv := FakeHost.lonely in
  unlink_refused env (socket m) = None
  ∧ listen_refused env (socket m) = None
  ∧ dial_refused env (socket m) = None
  ∧ closed (stop m) = false
  ∧ sendq (stop m) = []
  ∧ (socket m ∉ listening hostv)
  ∧ socket m ≠ pluginapi.KubeletSocket
  ∧ (pluginapi.KubeletSocket ∉ listening hostv)
  ∧ Serve env m hostv
    = Ret (Some (Err "context deadline exceeded"),
           {| resourceName := resourceName m; socket := socket m; devs := devs m;
              stop := {| closed := true; sendq := [] |};
              health := health m; server := None |},
           {| fs := fs hostv ∖ {[socket m]};
              listening := listening hostv;
              kubelet_log := kubelet_log hostv |}).
Proof.
  intros env m hostv.
  assert (closed (stop m) = false) as C by (vm_compute; reflexivity).
  assert (sendq (stop m) = []) as Q by (vm_compute; reflexivity).
  assert (socket m ∉ listening hostv) as N
    by (apply (bool_decide_unpack _); vm_compute; exact I).
  assert (socket m ≠ pluginapi.KubeletSocket) as NK
    by (apply (bool_decide_unpack _); vm_compute; exact I).
  assert (pluginapi.KubeletSocket ∉ listening hostv) as K
    by (apply (bool_decide_unpack _); vm_compute; exact I).
  refine (conj eq_refl (conj eq_refl (conj eq_refl
            (conj C (conj Q (conj N (conj NK (conj K _)))))))).
  exact (Serve_without_kubelet env m hostv eq_refl eq_refl eq_refl C Q N NK K).
Defined.

Lemma ListAndWatch_until_stop_witness :
  let m := FakeHost.plugin0 in
  let h := FakeHost.heap0 in
  let sc := [Some (Err "transport is closing")] in
  let evs := [RecvHealth (Some 1); RecvHealth (Some 4); RecvStop;
              RecvHealth None; RecvHealth (Some 2)] in
  Forall (λ d, is_Some (deref h d)) (signals_before_stop evs)
  ∧ (let r := ListAndWatch m {| script := sc; sent := [] |} evs h in
     r.2 = (if received_stop evs then Returned None else Waiting)
     ∧ emissions r.1.2
       = inventory m <$> (h :: heaps_after (signals_before_stop evs) h)
     ∧ length (emissions r.1.2) = S (length (signals_before_stop evs))
     ∧ r.1.1 = default h (last (heaps_after (signals_before_stop evs) h))).
Proof.
  intros m h sc evs.
  assert (Forall (λ d, is_Some (deref h d)) (signals_before_stop evs)) as V.
  { repeat constructor; vm_compute; by eexists. }
  exact (conj V (ListAndWatch_until_stop m sc evs h V)).
Defined.

Lemma final_store_depends_on_signalled_set_witness :
  let m := FakeHost.plugin0 in
  let h := FakeHost.heap0 in
  let sc := [Some (Err "transport is closing")] in
  let sc' := [] in
  let ds := [Some 1; Some 4; Some 1] in
  let ds' := [Some 4; Some 1] in
  Forall (λ d, is_Some (deref h d)) ds
  ∧ Forall (λ d, is_Some (deref h d)) ds'
  ∧ (∀ p, p ∈ ds ↔ p ∈ ds')
  ∧ (let final := (ListAndWatch m {| script := sc; sent := [] |}
                     (RecvHealth <$> ds) h).1.1 in
     let final' := (ListAndWatch m {| script := sc'; sent := [] |}
                      (RecvHealth <$> ds') h).1.1 in
     (∀ p, deref final p
           = if decide (p ∈ ds)
             then (λ d, {| ID := ID d; Health := pluginapi.Unhealthy |})
                    <$> deref h p
             else deref h p)
     ∧ final = final').
Proof.
  intros m h sc sc' ds ds'.
  assert (Forall (λ d, is_Some (deref h d)) ds) as V.
  { repeat constructor; vm_compute; by eexists. }
  assert (Forall (λ d, is_Some (deref h d)) ds') as V'.
  { repeat constructor; vm_compute; by eexists. }
  assert (∀ p, p ∈ ds ↔ p ∈ ds') as Same.
  { intros p. subst ds ds'. rewrite !elem_of_cons, !elem_of_nil. tauto. }
  refine (conj V (conj V' (conj Same _))).
  exact (final_store_depends_on_signalled_set m sc sc' ds ds' h V V' Same).
Defined.

Lemma health_signal_reaches_one_call_witness :
  let sys := FakeHost.state_after
               [OpStart FakeHost.calm; OpListAndWatch []; OpListAndWatch [];
                OpUnhealthy (Some 1); OpUnhealthy (Some 3)] FakeHost.sys0 in
  let sys' := FakeHost.state_after [OpSelectHealth 1] sys in
  step (OpSelectHealth 1) sys = Some sys'
  ∧ ∃ d q s s',
      sendq (health (plugin sys)) = d :: q
      ∧ sendq (health (plugin sys')) = q
      ∧ calls sys !! 1 = Some {| call_stream := s; call_status := Waiting |}
      ∧ set_Health d pluginapi.Unhealthy (heap sys) = Some (heap sys')
      ∧ calls sys' !! 1 = Some {| call_stream := s'; call_status := Waiting |}
      ∧ emissions s' = emissions s ++ [inventory (plugin sys) (heap sys')]
      ∧ devs (plugin sys') = devs (plugin sys)
      ∧ ∀ j, j ≠ 1 → calls sys' !! j = calls sys !! j.
Proof.
  intros sys sys'.
  assert (step (OpSelectHealth 1) sys = Some sys') as S
    by (vm_compute; reflexivity).
  exact (conj S (health_signal_reaches_one_call 1 sys sys' S)).
Defined.

Lemma handoffs_run_the_loop_witness :
  let sys := FakeHost.state_after
               [OpStart FakeHost.calm; OpListAndWatch []] FakeHost.sys0 in
  let s := (Send {| lw_Devices := devs FakeHost.plugin0 |} FakeHost.heap0
              {| script := []; sent := [] |}).2 in
  let ds := [Some 1; Some 3; Some 1] in
  calls sys !! 0 = Some {| call_stream := s; call_status := Waiting |}
  ∧ health (plugin sys) = {| closed := false; sendq := [] |}
  ∧ Forall (λ d, is_Some (deref (heap sys) d)) ds
  ∧ (let r := watch_loop (plugin sys) (RecvHealth <$> ds) (heap sys) s in
     run (handoffs 0 ds) sys
     = Some {| plugin := plugin sys; heap := r.1.1; host := host sys;
               calls := <[0 := {| call_stream := r.1.2; call_status := Waiting |}]>
                          (calls sys) |}).
Proof.
  intros sys s ds.
  assert (calls sys !! 0 = Some {| call_stream := s; call_status := Waiting |}) as C
    by (vm_compute; reflexivity).
  assert (health (plugin sys) = {| closed := false; sendq := [] |}) as H
    by (vm_compute; reflexivity).
  assert (Forall (λ d, is_Some (deref (heap sys) d)) ds) as V.
  { repeat constructor; vm_compute; by eexists. }
  refine (conj C (conj H (conj V _))).
  exact (handoffs_run_the_loop 0 ds sys s C H V).
Defined.

Lemma store_written_by_health_case_only_witness :
  let ops := [OpStart FakeHost.calm; OpListAndWatch []; OpUnhealthy (Some 1);
              OpAllocate None; OpRegister FakeHost.calm pluginapi.KubeletSocket
                                 RdmaSriovResourceName;
              OpStop FakeHost.calm; OpSelectStop 0] in
  let sys' := FakeHost.state_after ops FakeHost.sys0 in
  Forall (λ o, takes_health_case o = false) ops
  ∧ run ops FakeHost.sys0 = Some sys'
  ∧ heap sys' = heap FakeHost.sys0.
Proof.
  intros ops sys'.
  assert (Forall (λ o, takes_health_case o = false) ops) as F
    by (repeat constructor).
  assert (run ops FakeHost.sys0 = Some sys') as R by (vm_compute; reflexivity).
  refine (conj F (conj R _)).
  exact (store_written_by_health_case_only ops FakeHost.sys0 sys' F R).
Defined.

Lemma channels_along_runs_witness :
  let ops := [OpStart FakeHost.calm; OpListAndWatch []; OpUnhealthy (Some 1);
              OpStop FakeHost.calm; OpSelectHealth 0; OpListAndWatch [];
              OpSelectStop 1; OpSelectStop 0] in
  let sys := FakeHost.sys0 in
  let sys' := FakeHost.state_after ops sys in
  run ops sys = Some sys'
  ∧ (resourceName (plugin sys') = resourceName (plugin sys)
     ∧ socket (plugin sys') = socket (plugin sys)
     ∧ closed (health (plugin sys')) = closed (health (plugin sys))
     ∧ (sendq (stop (plugin sys)) = [] → sendq (stop (plugin sys')) = [])
     ∧ (closed (stop (plugin sys)) = true → closed (stop (plugin sys')) = true)).
Proof.
  intros ops sys sys'.
  assert (run ops sys = Some sys') as R by (vm_compute; reflexivity).
  exact (conj R (channels_along_runs ops sys sys' R)).
Defined.

Lemma NewRdmaSriovDevPlugin_nothing_to_expose_witness :
  let config := {| PfNetdevices := ["no-sriov"; "no-handle"; "unknown"; "no-vfs"] |} in
  let w : FakeHost.World := [] in
  let h := FakeHost.heap0 in
  Forall (λ c, c = None ∨ c = Some 0) (vf_counts (PfNetdevices config) w)
  ∧ (devs (NewRdmaSriovDevPlugin config w h).1.1 = []
     ∧ (NewRdmaSriovDevPlugin config w h).2 = h
     ∧ server (NewRdmaSriovDevPlugin config w h).1.1 = None).
Proof.
  intros config w h.
  assert (Forall (λ c, c = None ∨ c = Some 0) (vf_counts (PfNetdevices config) w)) as Z.
  { vm_compute. repeat constructor; (by left) || (by right). }
  exact (conj Z (NewRdmaSriovDevPlugin_nothing_to_expose config w h Z)).
Defined.
